(** * migrate-docs.py: filename normalisation, path mapping and reference
    rewriting, as a shallow embedding.

  Python [str] values are modelled as [string] (sequences of 8-bit
  characters; the patterns of the script only name ASCII characters),
  [pathlib.Path] values as their list of parts, the [Dict[str, str]]
  filename table as a [gmap string string], and the [re] patterns of the
  script as terms of a small regular-expression syntax run by a
  backtracking matcher with Python's priorities (leftmost, greedy). *)

From Stdlib Require Import Ascii String List Bool Arith Lia OrderedTypeEx.
From stdpp Require Import base option list sorting gmap strings pretty.


(** ** Python string primitives *)

Module Str.

Definition len (s : string) : nat := String.length s.

(** [s.startswith(p)] *)
Fixpoint startswith (s p : string) {struct p} : bool :=
  match p with
  | EmptyString => true
  | String c p' =>
      match s with
      | EmptyString => false
      | String d s' => Ascii.eqb c d && startswith s' p'
      end
  end.

(** [s[n:]] *)
Fixpoint drop (n : nat) (s : string) : string :=
  match n with
  | O => s
  | S n' => match s with
            | EmptyString => EmptyString
            | String _ s' => drop n' s'
            end
  end.

(** [s[:n]] *)
Fixpoint take (n : nat) (s : string) : string :=
  match n with
  | O => EmptyString
  | S n' => match s with
            | EmptyString => EmptyString
            | String c s' => String c (take n' s')
            end
  end.

(** [s.endswith(p)] *)
Definition endswith (s p : string) : bool :=
  (len p <=? len s) && String.eqb (drop (len s - len p) s) p.

(** [s[:-n]] for [n > 0]: the empty string when [s] is shorter than [n]. *)
Definition drop_last (n : nat) (s : string) : string :=
  take (len s - n) s.

(** [p in s] *)
Fixpoint contains (s p : string) : bool :=
  startswith s p ||
  match s with
  | EmptyString => false
  | String _ s' => contains s' p
  end.

(** [c in s] for a single character. *)
Fixpoint has_char (c : ascii) (s : string) : bool :=
  match s with
  | EmptyString => false
  | String d s' => Ascii.eqb c d || has_char c s'
  end.

(** [s.replace(old, new)]: every non-overlapping occurrence of [old],
    scanning from the left.  [skip] counts the characters of an
    occurrence that was already replaced and is still to be passed. *)
Fixpoint replace_from (old new : string) (skip : nat) (s : string) : string :=
  match s with
  | EmptyString => EmptyString
  | String c s' =>
      match skip with
      | S k => replace_from old new k s'
      | O =>
          if startswith s old
          then new +:+ replace_from old new (len old - 1) s'
          else String c (replace_from old new 0 s')
      end
  end.

(** With an empty [old], Python puts [new] before every character and at
    the end. *)
Fixpoint intersperse (new s : string) : string :=
  match s with
  | EmptyString => new
  | String c s' => new +:+ String c (intersperse new s')
  end.

Definition replace (old new s : string) : string :=
  match old with
  | EmptyString => intersperse new s
  | _ => replace_from old new 0 s
  end.

(** [s.split(sep)[0]] for a non-empty [sep]: the text before the first
    occurrence of [sep], all of [s] when there is none. *)
Fixpoint split_head (sep s : string) : string :=
  match s with
  | EmptyString => EmptyString
  | String c s' =>
      if startswith s sep then EmptyString else String c (split_head sep s')
  end.

(** [s.lstrip(chars)] *)
Fixpoint lstrip (chars s : string) : string :=
  match s with
  | EmptyString => EmptyString
  | String c s' => if has_char c chars then lstrip chars s' else s
  end.

(** [s.rfind(c) + 1] for a single character: the index just after the
    last [c], 0 when there is none. *)
Fixpoint after_last (c : ascii) (s : string) : nat :=
  match s with
  | EmptyString => 0
  | String d s' =>
      if has_char c s' then S (after_last c s')
      else if Ascii.eqb c d then 1 else 0
  end.

(** [s.rfind(c)], as an option. *)
Definition rfind (c : ascii) (s : string) : option nat :=
  match after_last c s with
  | O => None
  | S i => Some i
  end.

End Str.

(** ** [os.path] on POSIX *)

Module OsPath.

(** [posixpath.basename]: [i = p.rfind('/') + 1; return p[i:]]. *)
Definition basename (p : string) : string :=
  Str.drop (Str.after_last "/"%char p) p.

(** The loop of [genericpath._splitext] that passes the leading dots of
    the last component: [true] when a character other than the dot
    stands between [filenameIndex] and [dotIndex]. *)
Fixpoint has_non_dot (s : string) (n : nat) : bool :=
  match n with
  | O => false
  | S n' =>
      match s with
      | EmptyString => false
      | String c s' => negb (Ascii.eqb c "."%char) || has_non_dot s' n'
      end
  end.

(** [posixpath.splitext(p)]: the extension starts at the last dot of the
    last component, unless only dots precede it there. *)
Definition splitext (p : string) : string * string :=
  let sepIndex1 := Str.after_last "/"%char p in        (* sepIndex + 1 *)
  match Str.rfind "."%char p with
  | None => (p, EmptyString)
  | Some dotIndex =>
      if sepIndex1 <=? dotIndex                      (* dotIndex > sepIndex *)
      then
        if has_non_dot (Str.drop sepIndex1 p) (dotIndex - sepIndex1)
        then (Str.take dotIndex p, Str.drop dotIndex p)
        else (p, EmptyString)
      else (p, EmptyString)
  end.

End OsPath.

(** ** Regular expressions

    The fragment of Python's [re] syntax that the script uses.  [Bol] is
    [^] (without [re.MULTILINE]: the start of the subject only), [Cls] a
    character class, [Star] the greedy star, [Group] a numbered capturing
    group. *)

Module Re.

Inductive regex : Type :=
| Eps : regex
| Bol : regex
| Chr : ascii -> regex
| Cls : (ascii -> bool) -> regex
| Cat : regex -> regex -> regex
| Alt : regex -> regex -> regex
| Star : regex -> regex
| Group : nat -> regex -> regex.

(** [r?], [r+] and [r{lo,hi}], all greedy. *)
Definition Opt (r : regex) : regex := Alt r Eps.
Definition Plus (r : regex) : regex := Cat r (Star r).

Fixpoint Times (n : nat) (r : regex) : regex :=
  match n with
  | O => Eps
  | S n' => Cat r (Times n' r)
  end.

Fixpoint UpTo (n : nat) (r : regex) : regex :=
  match n with
  | O => Eps
  | S n' => Opt (Cat r (UpTo n' r))
  end.

Definition Range (lo hi : nat) (r : regex) : regex :=
  Cat (Times lo r) (UpTo (hi - lo) r).

(** A literal string. *)
Fixpoint Lit (s : string) : regex :=
  match s with
  | EmptyString => Eps
  | String c s' => Cat (Chr c) (Lit s')
  end.

(** Character classes. *)
Definition in_range (lo hi c : ascii) : bool :=
  (nat_of_ascii lo <=? nat_of_ascii c) && (nat_of_ascii c <=? nat_of_ascii hi).

(** [\d] *)
Definition digit (c : ascii) : bool := in_range "0" "9" c.
(** [[a-z]] *)
Definition lower (c : ascii) : bool := in_range "a" "z" c.
(** [\s]: the characters for which [str.isspace] holds below 128. *)
Definition space (c : ascii) : bool :=
  in_range "009" "013" c || in_range "028" "032" c.
(** [[^...]] *)
Definition none_of (cs : string) (c : ascii) : bool := negb (Str.has_char c cs).

(** The groups captured so far, most recent first. *)
Definition groups : Type := list (nat * string).

Fixpoint group_lookup (g : groups) (i : nat) : option string :=
  match g with
  | [] => None
  | (j, s) :: g' => if Nat.eqb i j then Some s else group_lookup g' i
  end.

(** The loop of a greedy star.  [step] matches the body once; as long as
    the body matches and consumes something the loop goes on, and when the
    rest fails after [n] iterations it is tried after [n - 1].  An
    iteration that consumes nothing ends the star.  The subject bounds the
    number of iterations. *)
Fixpoint star_loop {A : Type}
    (step : bool -> string -> groups ->
            (bool -> string -> groups -> option A) -> option A)
    (k : bool -> string -> groups -> option A)
    (fuel : nat) (b : bool) (s : string) (g : groups) : option A :=
  match fuel with
  | O => k b s g
  | S fuel' =>
      match step b s g
              (fun b' s' g' =>
                 if Str.len s' <? Str.len s
                 then star_loop step k fuel' b' s' g'
                 else k b' s' g')
      with
      | Some x => Some x
      | None => k b s g
      end
  end.

(** The backtracking matcher, in continuation-passing style.  [b] tells
    whether the position is the start of the subject, [s] is the rest of
    the subject, [k] is what remains to be matched after [r]; a failing
    continuation makes the matcher try its next alternative. *)
Fixpoint run {A : Type} (r : regex) (b : bool) (s : string) (g : groups)
    (k : bool -> string -> groups -> option A) {struct r} : option A :=
  match r with
  | Eps => k b s g
  | Bol => if b then k b s g else None
  | Chr c =>
      match s with
      | String d s' => if Ascii.eqb c d then k false s' g else None
      | EmptyString => None
      end
  | Cls p =>
      match s with
      | String d s' => if p d then k false s' g else None
      | EmptyString => None
      end
  | Cat r1 r2 => run r1 b s g (fun b' s' g' => run r2 b' s' g' k)
  | Alt r1 r2 =>
      match run r1 b s g k with
      | Some x => Some x
      | None => run r2 b s g k
      end
  | Star r1 =>
      star_loop (fun b' s' g' k' => run r1 b' s' g' k') k (Str.len s) b s g
  | Group i r1 =>
      run r1 b s g
        (fun b' s' g' => k b' s' ((i, Str.take (Str.len s - Str.len s') s) :: g'))
  end.

(** A match object: [group(0)], the numbered groups, and the rest of the
    subject after the match. *)
Record Match : Type := mkMatch {
  m_text : string;
  m_groups : groups;
  m_rest : string
}.

(** [match.group(i)]; a group that took no part in the match reads as the
    empty string here (the script reads no such group). *)
Definition group (m : Match) (i : nat) : string :=
  match i with
  | O => m_text m
  | _ => default EmptyString (group_lookup (m_groups m) i)
  end.

(** One attempt at one position.  With [must_advance], an empty match is
    refused, and the matcher backtracks to find a non-empty one. *)
Definition match_here (r : regex) (must_advance b : bool) (s : string) : option Match :=
  run r b s []
    (fun _ s' g =>
       let m := mkMatch (Str.take (Str.len s - Str.len s') s) g s' in
       if must_advance && (Str.len (m_text m) =? 0) then None else Some m).

(** [re.match(r, s)] as a truth value. *)
Definition matches (r : regex) (s : string) : bool :=
  match match_here r false true s with
  | Some _ => true
  | None => false
  end.

(** [re.search(r, s)] as a truth value: a match at some position. *)
Fixpoint search_from (r : regex) (b : bool) (s : string) : bool :=
  match match_here r false b s with
  | Some _ => true
  | None =>
      match s with
      | EmptyString => false
      | String _ s' => search_from r false s'
      end
  end.

Definition search (r : regex) (s : string) : bool := search_from r true s.

(** [re.sub(r, repl, s)] with a function [repl].  At each position the
    pattern is tried; a match is replaced and the scan goes on after it;
    after an empty match the same position is tried once more for a
    non-empty match, then one character is copied (CPython 3.7 and later).
    [skip] counts the characters of a match that are still to be passed. *)
Fixpoint sub_from (r : regex) (repl : Match -> string) (skip : nat) (b : bool)
    (s : string) {struct s} : string :=
  match s with
  | EmptyString =>
      match match_here r false b EmptyString with
      | Some m => repl m
      | None => EmptyString
      end
  | String c s' =>
      match skip with
      | S k => sub_from r repl k false s'
      | O =>
          match match_here r false b s with
          | None => String c (sub_from r repl 0 false s')
          | Some m =>
              match Str.len (m_text m) with
              | S n => repl m +:+ sub_from r repl n false s'
              | O =>
                  match match_here r true b s with
                  | None => repl m +:+ String c (sub_from r repl 0 false s')
                  | Some m' =>
                      repl m +:+ repl m' +:+
                      sub_from r repl (Str.len (m_text m') - 1) false s'
                  end
              end
          end
      end
  end.

Definition sub (r : regex) (repl : Match -> string) (s : string) : string :=
  sub_from r repl 0 true s.

(** [re.finditer(r, s)]: the matches that [sub] replaces, in order. *)
Fixpoint finditer_from (r : regex) (skip : nat) (b : bool) (s : string)
    {struct s} : list Match :=
  match s with
  | EmptyString =>
      match match_here r false b EmptyString with
      | Some m => [m]
      | None => []
      end
  | String c s' =>
      match skip with
      | S k => finditer_from r k false s'
      | O =>
          match match_here r false b s with
          | None => finditer_from r 0 false s'
          | Some m =>
              match Str.len (m_text m) with
              | S n => m :: finditer_from r n false s'
              | O =>
                  match match_here r true b s with
                  | None => m :: finditer_from r 0 false s'
                  | Some m' =>
                      m :: m' :: finditer_from r (Str.len (m_text m') - 1) false s'
                  end
              end
          end
      end
  end.

Definition finditer (r : regex) (s : string) : list Match :=
  finditer_from r 0 true s.

End Re.

(** More string primitives, used on the output of [git]. *)

Module StrWs.

(** [c.isspace()] below 128. *)
Definition isspace (c : ascii) : bool := Re.space c.

Fixpoint lstrip_ws (s : string) : string :=
  match s with
  | EmptyString => EmptyString
  | String c s' => if isspace c then lstrip_ws s' else s
  end.

Fixpoint rstrip_ws (s : string) : string :=
  match s with
  | EmptyString => EmptyString
  | String c s' =>
      match rstrip_ws s' with
      | EmptyString => if isspace c then EmptyString else String c EmptyString
      | t => String c t
      end
  end.

(** [s.strip()] *)
Definition strip (s : string) : string := rstrip_ws (lstrip_ws s).

(** The line feed. *)
Definition nl : ascii := "010"%char.

(** [s.split('\n')[-1]] *)
Definition last_line (s : string) : string :=
  Str.drop (Str.after_last nl s) s.

(** Truth value of a string. *)
Definition nonempty (s : string) : bool :=
  match s with
  | EmptyString => false
  | _ => true
  end.

(** Truth value of a list. *)
Definition nonempty_list {A : Type} (l : list A) : bool :=
  match l with
  | [] => false
  | _ => true
  end.

End StrWs.

(** ** Paths

    A [pathlib.Path] is the list of its parts; an absolute path has the
    root ["/"] as its first part.  [p / name] is used by the script with
    single names only. *)

Definition Path : Type := list string.

Module Pth.

Definition div (p : Path) (name : string) : Path := p ++ [name].

(** [p.name] *)
Definition name (p : Path) : string := List.last p EmptyString.

(** [p.parent] *)
Definition parent (p : Path) : Path := removelast p.

Fixpoint join (sep : string) (l : list string) : string :=
  match l with
  | [] => EmptyString
  | [x] => x
  | x :: l' => x +:+ sep +:+ join sep l'
  end.

(** [str(p)] *)
Definition str (p : Path) : string :=
  match p with
  | "/" :: rest => "/" +:+ join "/" rest
  | _ => join "/" p
  end.

(** [d] is an ancestor of [p], [p] itself excluded. *)
Fixpoint under (d p : Path) : bool :=
  match d, p with
  | [], _ :: _ => true
  | x :: d', y :: p' => String.eqb x y && under d' p'
  | _, _ => false
  end.

(** [p.relative_to(d)] for [p] under [d]. *)
Definition relative_to (d p : Path) : Path := drop (length d) p.

(** The order of [sorted] on paths: lexicographic on the parts, parts
    compared by code points. *)
Fixpoint compare (p q : Path) : comparison :=
  match p, q with
  | [], [] => Eq
  | [], _ :: _ => Lt
  | _ :: _, [] => Gt
  | x :: p', y :: q' =>
      match String.compare x y with
      | Eq => compare p' q'
      | c => c
      end
  end.

Definition leb (p q : Path) : bool :=
  match compare p q with
  | Gt => false
  | _ => true
  end.

Fixpoint insert_sorted (p : Path) (l : list Path) : list Path :=
  match l with
  | [] => [p]
  | q :: l' => if leb p q then p :: l else q :: insert_sorted p l'
  end.

Definition sorted (l : list Path) : list Path :=
  fold_right insert_sorted [] l.

(** All the prefixes of [p] but the empty one, [p] included. *)
Fixpoint prefixes (p : Path) : list Path :=
  match p with
  | [] => []
  | x :: p' => [x] :: map (cons x) (prefixes p')
  end.

End Pth.

(** ** Constants of the script *)

Definition WORKSPACE : Path := ["/"; "home"; "ubuntu"; "workspaces"; "flovyn"].
Definition TARGET_DIR : Path := Pth.div (Pth.div WORKSPACE "dev") "docs".
Definition MAPPING_FILE : Path := Pth.div TARGET_DIR "migration-map.txt".

Definition source_of (repo : string) : Path * string :=
  (Pth.div (Pth.div (Pth.div WORKSPACE repo) ".dev") "docs", repo).

Definition SOURCES : list (Path * string) :=
  [ source_of "flovyn-server"; source_of "flovyn-app";
    source_of "sdk-rust"; source_of "sdk-kotlin" ].

Definition TARGET_DIRS : list string :=
  ["design"; "plans"; "research"; "bugs"; "guides"; "architecture"; "archive"].

Definition CODE_EXTENSIONS : list string :=
  [".rs"; ".ts"; ".tsx"; ".py"; ".kt"; ".toml"; ".sql"; ".md"; ".sh";
   ".json"; ".yaml"; ".yml"].

Definition in_code_extensions (ext : string) : bool :=
  existsb (String.eqb ext) CODE_EXTENSIONS.

Record FileMapping : Type := mkFileMapping {
  old_path : Path;
  new_path : Path;
  old_filename : string;
  new_filename : string;
  source_repo : string
}.

(** ** The outside world

    The file system is a set of directories and a map from the paths of
    regular files to their text.  What the script learns from the programs
    it starts ([git log], [date]) and from the clock is given by [Env]:
    [None] stands for a call of [subprocess.run] that raises. *)

Record FS : Type := mkFS {
  fs_dirs : gset Path;
  fs_files : gmap Path string
}.

Record Env : Type := mkEnv {
  git_log_added : Path -> option string;
  git_log_last : Path -> option string;
  today : string;
  date_cmd : string
}.

Module Fs.

(** [p.exists()] *)
Definition exists_ (fs : FS) (p : Path) : bool :=
  bool_decide (p ∈ fs_dirs fs) || bool_decide (is_Some (fs_files fs !! p)).

Definition all_paths (fs : FS) : list Path :=
  elements (fs_dirs fs ∪ dom (fs_files fs)).

(** [sorted(d.rglob("*.md"))]: the paths below [d] whose name ends in
    [.md], in the order of [sorted]. *)
Definition rglob_md (fs : FS) (d : Path) : list Path :=
  Pth.sorted
    (filter (fun p => Pth.under d p && Str.endswith (Pth.name p) ".md" = true)
            (all_paths fs)).

End Fs.

(** ** Effects

    A run of the script changes the file system and prints lines.  A
    computation takes the world and gives the new world together with a
    value or the exception that ended it. *)

Record World : Type := mkWorld {
  w_fs : FS;
  w_console : list string
}.

Inductive Result (A : Type) : Type :=
| Ok : A -> Result A
| Raise : string -> Result A.

Arguments Ok {A} _.
Arguments Raise {A} _.

Definition M (A : Type) : Type := World -> World * Result A.

#[global] Instance M_ret : MRet M := fun A (a : A) (w : World) => (w, Ok a).

#[global] Instance M_bind : MBind M :=
  fun A B (f : A -> M B) (m : M A) (w : World) =>
    match m w with
    | (w', Ok a) => f a w'
    | (w', Raise e) => (w', Raise e)
    end.

Module Eff.

Definition raise {A : Type} (e : string) : M A := fun w => (w, Raise e).

(** The file system as the computation finds it. *)
Definition get_fs : M FS := fun w => (w, Ok (w_fs w)).

(** [print(line)] *)
Definition print (line : string) : M unit :=
  fun w => (mkWorld (w_fs w) (w_console w ++ [line]), Ok tt).

(** [p.read_text()] *)
Definition read_text (p : Path) : M string :=
  fun w =>
    match fs_files (w_fs w) !! p with
    | Some content => (w, Ok content)
    | None => (w, Raise "FileNotFoundError")
    end.

(** [p.mkdir(parents=True, exist_ok=True)]: [p] and the ancestors that are
    missing become directories; a regular file on the way is an error. *)
Definition mkdir_p (p : Path) : M unit :=
  fun w =>
    let fs := w_fs w in
    if existsb (fun q => bool_decide (is_Some (fs_files fs !! q))) (Pth.prefixes p)
    then (w, Raise "FileExistsError")
    else (mkWorld (mkFS (fs_dirs fs ∪ list_to_set (Pth.prefixes p)) (fs_files fs))
                  (w_console w), Ok tt).

(** [p.write_text(content)], and [open(p, "w")] followed by writes: the
    parent must be a directory and [p] must not be one. *)
Definition write_text (p : Path) (content : string) : M unit :=
  fun w =>
    let fs := w_fs w in
    if bool_decide (p ∈ fs_dirs fs) then (w, Raise "IsADirectoryError")
    else if negb (bool_decide (Pth.parent p ∈ fs_dirs fs))
    then (w, Raise "FileNotFoundError")
    else (mkWorld (mkFS (fs_dirs fs) (<[p := content]> (fs_files fs)))
                  (w_console w), Ok tt).

(** [if cond: body] *)
Definition when (cond : bool) (body : M unit) : M unit :=
  if cond then body else mret tt.

(** [for x in l: body(x)] *)
Fixpoint for_each {A : Type} (l : list A) (body : A -> M unit) : M unit :=
  match l with
  | [] => mret tt
  | x :: l' => body x ;; for_each l' body
  end.

(** A loop that extends a list: [for x in l: acc.extend(body(x))]. *)
Fixpoint for_extend {A B : Type} (l : list A) (body : A -> M (list B))
    (acc : list B) : M (list B) :=
  match l with
  | [] => mret acc
  | x :: l' => ys ← body x; for_extend l' body (acc ++ ys)
  end.

End Eff.

(** ** The script *)

Section Script.

Variable env : Env.

(** [get_git_date]: the date on which the file was added, else the date of
    its last change, else today; [YYYY-MM-DD] with the hyphens removed. *)
Definition get_git_date (file_path : Path) : string :=
  match git_log_added env file_path with
  | None => today env
  | Some out1 =>
      let last := StrWs.last_line (StrWs.strip out1) in
      if StrWs.nonempty last then Str.replace "-" "" last
      else
        match git_log_last env file_path with
        | None => today env
        | Some out2 =>
            if StrWs.nonempty (StrWs.strip out2)
            then Str.replace "-" "" (StrWs.strip out2)
            else today env
        end
  end.

(** [^\d{8}_] *)
Definition date_prefix_pattern : Re.regex :=
  Re.Cat Re.Bol (Re.Cat (Re.Times 8 (Re.Cls Re.digit)) (Re.Chr "_")).

(** [_\d{3}-] *)
Definition sequence_pattern : Re.regex :=
  Re.Cat (Re.Chr "_") (Re.Cat (Re.Times 3 (Re.Cls Re.digit)) (Re.Chr "-")).

Definition strip_md (filename : string) : string :=
  if Str.endswith filename ".md" then Str.drop_last 3 filename else filename.

Definition add_date (source_file : Path) (result : string) : string :=
  if negb (Re.matches date_prefix_pattern result)
  then get_git_date source_file +:+ "_" +:+ result
  else result.

Definition normalize_filename (filename : string) (source_file : Path) : string :=
  let result := strip_md filename in
  let result := add_date source_file result in
  let result := Re.sub sequence_pattern (fun _ => "_") result in
  let result := Str.replace "-" "_" result in
  result +:+ ".md".

(** *** The path mapper *)

Definition Table : Type := gmap string string.

(** [TARGET_DIR / dir_type [/ subdir] / new_filename]; [None] where
    [parts[0]] raises [IndexError]. *)
Definition target_for (parts : Path) (new_filename : string) : option Path :=
  match parts with
  | [] => None
  | dir_type :: subdir :: _ :: _ =>
      Some (Pth.div (Pth.div (Pth.div TARGET_DIR dir_type) subdir) new_filename)
  | dir_type :: _ =>
      Some (Pth.div (Pth.div TARGET_DIR dir_type) new_filename)
  end.

Definition conflicts (fs : FS) (mappings : list FileMapping) (target_path : Path) : bool :=
  Fs.exists_ fs target_path ||
  existsb (fun m => bool_decide (new_path m = target_path)) mappings.

(** The body of the inner loop of [build_filename_mapping]. *)
Definition map_file (fs : FS) (source_dir : Path) (source_repo : string)
    (st : list FileMapping * Table) (source_file : Path)
    : option (list FileMapping * Table) :=
  let '(mappings, filename_map) := st in
  let parts := Pth.relative_to source_dir source_file in
  let old_filename := Pth.name source_file in
  let new_filename := normalize_filename old_filename source_file in
  match target_for parts new_filename with
  | None => None
  | Some target_path =>
      let '(new_filename, target_path) :=
        if conflicts fs mappings target_path
        then
          let base := Str.drop_last 3 new_filename in
          let new_filename := base +:+ "_" +:+ source_repo +:+ ".md" in
          (new_filename, default target_path (target_for parts new_filename))
        else (new_filename, target_path) in
      let mapping :=
        mkFileMapping source_file target_path old_filename new_filename source_repo in
      Some (mappings ++ [mapping], <[old_filename := new_filename]> filename_map)
  end.

Fixpoint map_files (fs : FS) (source_dir : Path) (source_repo : string)
    (st : list FileMapping * Table) (files : list Path)
    : option (list FileMapping * Table) :=
  match files with
  | [] => Some st
  | f :: files' =>
      match map_file fs source_dir source_repo st f with
      | None => None
      | Some st' => map_files fs source_dir source_repo st' files'
      end
  end.

(** The outer loop, over the sources. *)
Fixpoint map_sources (fs : FS) (st : list FileMapping * Table)
    (sources : list (Path * string)) : option (list FileMapping * Table) :=
  match sources with
  | [] => Some st
  | (source_dir, source_repo) :: sources' =>
      if negb (Fs.exists_ fs source_dir) then map_sources fs st sources'
      else
        match map_files fs source_dir source_repo st (Fs.rglob_md fs source_dir) with
        | None => None
        | Some st' => map_sources fs st' sources'
        end
  end.

(** [build_filename_mapping]; [None] stands for an uncaught exception. *)
Definition build_filename_mapping (fs : FS) : option (list FileMapping * Table) :=
  map_sources fs ([], ∅) SOURCES.

(** *** The reference rewriter *)

Definition normalize_doc_link (link : string) (filename_map : Table)
    (source_repo : string) : string :=
  let filename := OsPath.basename link in
  match filename_map !! filename with
  | Some new_filename => Str.replace filename new_filename link
  | None => link
  end.

Definition KNOWN_REPOS : list string :=
  ["flovyn-server"; "flovyn-app"; "sdk-rust"; "sdk-python"; "sdk-kotlin"; "dev"].

(** [^(\.\./)+] *)
Definition parent_dirs_pattern : Re.regex :=
  Re.Cat Re.Bol (Re.Plus (Re.Group 1 (Re.Lit "../"))).

(** The loop over the known repositories: the reference starts with one
    of them and a slash. *)
Definition has_repo_prefix (ref : string) : bool :=
  existsb (fun repo => Str.startswith ref (repo +:+ "/")) KNOWN_REPOS.

Definition normalize_code_reference (ref source_repo : string) : string :=
  if has_repo_prefix ref then ref
  else
    let workspace_str := Pth.str WORKSPACE in
    if Str.startswith ref workspace_str
    then Str.lstrip "/" (Str.drop (Str.len workspace_str) ref)
    else if Str.startswith ref ".."
    then
      let clean_ref := Re.sub parent_dirs_pattern (fun _ => "") ref in
      source_repo +:+ "/" +:+ clean_ref
    else if Str.contains ref "/" && negb (Str.startswith ref ".")
            && in_code_extensions (OsPath.splitext ref).2
    then source_repo +:+ "/" +:+ ref
    else ref.

(** The pattern of markdown links, [md_link_pattern] in the script: an
    opening bracket, group 1 (the text: any run of characters other than
    the closing bracket), a closing bracket, an opening parenthesis,
    group 2 (the path: one or more characters other than the closing
    parenthesis) and a closing parenthesis. *)
Definition md_link_pattern : Re.regex :=
  Re.Cat (Re.Chr "[")
 (Re.Cat (Re.Group 1 (Re.Star (Re.Cls (Re.none_of "]"))))
 (Re.Cat (Re.Chr "]")
 (Re.Cat (Re.Chr "(")
 (Re.Cat (Re.Group 2 (Re.Plus (Re.Cls (Re.none_of ")"))))
         (Re.Chr ")"))))).

(** [[^/]+/\.dev/docs/] *)
Definition dev_docs_pattern : Re.regex :=
  Re.Cat (Re.Plus (Re.Cls (Re.none_of "/"))) (Re.Lit "/.dev/docs/").

Definition collapse_dev_docs (path : string) : string :=
  Re.sub dev_docs_pattern (fun _ => "dev/docs/") path.

Definition is_url (path : string) : bool :=
  Str.startswith path "http://" || Str.startswith path "https://"
  || Str.startswith path "#".

Definition replace_md_link (filename_map : Table) (source_repo : string)
    (m : Re.Match) : string :=
  let text := Re.group m 1 in
  let path := Re.group m 2 in
  if is_url path then Re.group m 0
  else if Str.endswith path ".md" || Str.contains path "/.dev/docs/"
  then
    let new_path := normalize_doc_link path filename_map source_repo in
    let new_path := collapse_dev_docs new_path in
    "[" +:+ text +:+ "](" +:+ new_path +:+ ")"
  else if in_code_extensions (OsPath.splitext path).2
  then
    let new_path := normalize_code_reference path source_repo in
    "[" +:+ text +:+ "](" +:+ new_path +:+ ")"
  else Re.group m 0.

(** The pattern of inline code paths, [code_ref_pattern] in the script: a
    backtick, group 1 (one or more characters other than the backtick, a
    dot, one to four lower-case letters and optionally a colon with one or
    more digits) and a backtick. *)
Definition code_ref_pattern : Re.regex :=
  Re.Cat (Re.Chr "`")
 (Re.Cat (Re.Group 1
            (Re.Cat (Re.Plus (Re.Cls (Re.none_of "`")))
            (Re.Cat (Re.Chr ".")
            (Re.Cat (Re.Range 1 4 (Re.Cls Re.lower))
                    (Re.Opt (Re.Cat (Re.Chr ":") (Re.Plus (Re.Cls Re.digit))))))))
         (Re.Chr "`")).

Definition replace_code_ref (source_repo : string) (m : Re.Match) : string :=
  let ref := Re.group m 1 in
  let ext := (OsPath.splitext (Str.split_head ":" ref)).2 in
  if in_code_extensions ext
  then
    let new_ref := normalize_code_reference ref source_repo in
    "`" +:+ new_ref +:+ "`"
  else Re.group m 0.

(** The pattern of the labelled references, [meta_pattern] in the script:
    two stars, group 1 (Design, Plan or Bug), a colon and two stars, any
    white space, an optional opening bracket, group 2 (one or more
    characters other than the closing bracket and the line feed) and an
    optional closing bracket. *)
Definition meta_pattern : Re.regex :=
  Re.Cat (Re.Lit "**")
 (Re.Cat (Re.Group 1 (Re.Alt (Re.Lit "Design") (Re.Alt (Re.Lit "Plan") (Re.Lit "Bug"))))
 (Re.Cat (Re.Lit ":**")
 (Re.Cat (Re.Star (Re.Cls Re.space))
 (Re.Cat (Re.Opt (Re.Chr "["))
 (Re.Cat (Re.Group 2 (Re.Plus (Re.Cls (Re.none_of (String "]" (String StrWs.nl ""))))))
         (Re.Opt (Re.Chr "]"))))))).

Definition replace_meta (filename_map : Table) (source_repo : string)
    (m : Re.Match) : string :=
  let label := Re.group m 1 in
  let path := StrWs.strip (Re.group m 2) in
  if Str.endswith path ".md"
  then
    let new_path := normalize_doc_link path filename_map source_repo in
    let new_path := collapse_dev_docs new_path in
    "**" +:+ label +:+ ":** " +:+ new_path
  else Re.group m 0.

Definition normalize_links_in_content (content : string) (filename_map : Table)
    (source_repo : string) : string * list string :=
  let warnings : list string := [] in
  let new_content := content in
  let new_content :=
    Re.sub md_link_pattern (replace_md_link filename_map source_repo) new_content in
  let new_content :=
    Re.sub code_ref_pattern (replace_code_ref source_repo) new_content in
  let new_content :=
    Re.sub meta_pattern (replace_meta filename_map source_repo) new_content in
  (new_content, warnings).

(** *** The run *)

Definition NL : string := String StrWs.nl "".

Definition migrate_file (mapping : FileMapping) (filename_map : Table)
    (dry_run : bool) : M (list string) :=
  let warnings : list string := [] in
  content ← Eff.read_text (old_path mapping);
  let '(new_content, link_warnings) :=
    normalize_links_in_content content filename_map (source_repo mapping) in
  let warnings := warnings ++ link_warnings in
  Eff.when (negb dry_run)
    (Eff.mkdir_p (Pth.parent (new_path mapping)) ;;
     Eff.write_text (new_path mapping) new_content) ;;
  mret warnings.

Definition mapping_line (m : FileMapping) : string :=
  Pth.str (old_path m) +:+ " -> " +:+ Pth.str (new_path m) +:+ NL.

Definition mapping_file_content (mappings : list FileMapping) : string :=
  "# Doc Migration Mapping" +:+ NL +:+
  "# Generated: " +:+ StrWs.strip (date_cmd env) +:+ NL +:+
  "# Format: old_path -> new_path" +:+ NL +:+ NL +:+
  fold_right (fun m rest => mapping_line m +:+ rest) "" mappings.

Definition write_mapping_file (mappings : list FileMapping) (dry_run : bool) : M unit :=
  if dry_run then mret tt
  else Eff.write_text MAPPING_FILE (mapping_file_content mappings).

(** The body of the loop over [TARGET_DIRS]. *)
Definition create_target_dir (dry_run : bool) (dir_name : string) : M unit :=
  let target := Pth.div TARGET_DIR dir_name in
  Eff.print ("  " +:+ Pth.str target) ;;
  Eff.when (negb dry_run) (Eff.mkdir_p target).

(** The body of the loop over the mappings; its value is [warnings]. *)
Definition migrate_mapping (filename_map : Table) (dry_run : bool)
    (mapping : FileMapping) : M (list string) :=
  Eff.print ("  " +:+ Pth.str (old_path mapping)) ;;
  Eff.print ("    -> " +:+ Pth.str (new_path mapping)) ;;
  migrate_file mapping filename_map dry_run.

(** The lines under the summary heading. *)
Definition print_summary (dry_run : bool) : M unit :=
  if dry_run
  then
    Eff.print "Dry run complete. No files were modified." ;;
    Eff.print "Run without --dry-run to execute migration."
  else
    fs ← Eff.get_fs ;
    let migrated := length (Fs.rglob_md fs TARGET_DIR) in
    Eff.print ("Migrated files: " +:+ pretty migrated) ;;
    Eff.print ("Mapping file: " +:+ Pth.str MAPPING_FILE).

Definition print_warnings (all_warnings : list string) : M unit :=
  Eff.when (StrWs.nonempty_list all_warnings)
    (Eff.print (NL +:+ "Warnings (" +:+ pretty (length all_warnings) +:+ "):") ;;
     Eff.for_each all_warnings (fun w => Eff.print ("  - " +:+ w))).

(** [main] from the line that reports the number of files on. *)
Definition migrate_all (dry_run : bool) (built : list FileMapping * Table) : M unit :=
  let '(mappings, filename_map) := built in
  Eff.print ("  Found " +:+ pretty (length mappings) +:+ " files to migrate" +:+ NL) ;;
  all_warnings ← Eff.for_extend mappings (migrate_mapping filename_map dry_run) [] ;
  write_mapping_file mappings dry_run ;;
  Eff.print (NL +:+ "=== Summary ===") ;;
  print_summary dry_run ;;
  print_warnings all_warnings.

Definition main (dry_run : bool) : M unit :=
  Eff.when dry_run (Eff.print ("=== DRY RUN MODE ===" +:+ NL)) ;;
  Eff.print ("=== Doc Migration Script ===" +:+ NL) ;;
  Eff.print "Creating target directories..." ;;
  Eff.for_each TARGET_DIRS (create_target_dir dry_run) ;;
  Eff.print "" ;;
  Eff.print "Building file mapping..." ;;
  fs ← Eff.get_fs ;
  match build_filename_mapping fs with
  | None => Eff.raise "IndexError"
  | Some built => migrate_all dry_run built
  end.

End Script.

(** ** Vocabulary of the statements *)

(** The string holds no hyphen. *)
Definition no_hyphen (s : string) : Prop := Str.has_char "-" s = false.

(** [n] digits and then the character [c]: what [^\d{8}_] asks of the
    start of a name, for [n = 8] and the underscore. *)
Fixpoint digits_then (n : nat) (c : ascii) (s : string) : bool :=
  match s with
  | EmptyString => false
  | String d s' =>
      match n with
      | O => Ascii.eqb c d
      | S n' => Re.digit d && digits_then n' c s'
      end
  end.

(** A name of the form [^\d{8}_.*\.md$]: it starts with eight digits and
    an underscore and ends in [.md]. *)
Definition dated_md (f : string) : bool :=
  Re.matches date_prefix_pattern f && Str.endswith f ".md".

(** No [_NNN-] ordinal anywhere in the name. *)
Definition no_ordinal (f : string) : Prop := Re.search sequence_pattern f = false.

(** [n] times [../]. *)
Fixpoint dotdots (n : nat) : string :=
  match n with
  | O => ""
  | S n' => "../" +:+ dotdots n'
  end.

(** What the star of [(\.\./)+] runs: one [../], captured. *)
Definition step {A : Type} (b : bool) (s : string) (g : Re.groups)
    (k : bool -> string -> Re.groups -> option A) : option A :=
  Re.run (Re.Group 1 (Re.Lit "../")) b s g k.

(** The text of a markdown link. *)
Definition hyperlink (label target : string) : string :=
  "[" +:+ label +:+ "](" +:+ target +:+ ")".

(** The text that the reference rewriter returns. *)
Definition rewritten (content : string) (filename_map : Table)
    (source_repo : string) : string :=
  (normalize_links_in_content content filename_map source_repo).1.

(** The filename table that registers, in order, the new filename of
    every mapping under its original filename. *)
Definition table_of (mappings : list FileMapping) : Table :=
  fold_left (fun t m => <[old_filename m := new_filename m]> t) mappings ∅.

(** The normalized filename of the file of a mapping, before any
    collision suffix. *)
Definition normalized (env : Env) (m : FileMapping) : string :=
  normalize_filename env (old_filename m) (old_path m).

(** The same name with the repository appended to its base. *)
Definition suffixed (env : Env) (m : FileMapping) : string :=
  Str.drop_last 3 (normalized env m) +:+ "_" +:+ source_repo m +:+ ".md".

(** The parts of the file of a mapping below the documentation root of its
    repository. *)
Definition parts_of (m : FileMapping) : Path :=
  Pth.relative_to (source_of (source_repo m)).1 (old_path m).

(** The destination that is tried first. *)
Definition tentative (env : Env) (m : FileMapping) : option Path :=
  target_for (parts_of m) (normalized env m).

(** What the path mapper records for a file, given the mappings [earlier]
    recorded before it. *)
Definition recorded (env : Env) (fs : FS) (earlier : list FileMapping)
    (m : FileMapping) : Prop :=
  old_filename m = Pth.name (old_path m) /\
  exists target,
    tentative env m = Some target /\
    if conflicts fs earlier target
    then new_filename m = suffixed env m /\
         new_path m = default target (target_for (parts_of m) (suffixed env m))
    else new_filename m = normalized env m /\ new_path m = target.

(** The invariant of the loops of the path mapper: the table registers
    the mappings, and every mapping is what [recorded] says, given the
    ones before it. *)
Definition mapper_inv (env : Env) (fs : FS) (st : list FileMapping * Table) : Prop :=
  st.2 = table_of st.1 /\
  forall l1 m l2, st.1 = l1 ++ m :: l2 -> recorded env fs l1 m.

(** The order of [sorted] on paths, as a relation. *)
Definition path_le (p q : Path) : Prop := Pth.leb p q = true.

(** A path of at most eight parts that is not the documentation root of
    a source repository: the directories that [mkdir] makes for the target
    tree are such paths, the discovered files and their destinations are
    not. *)
Definition shallow (p : Path) : bool :=
  (length p <=? 8) && negb (existsb (fun src => bool_decide (p = src.1)) SOURCES).

(** [fs1] is [fs] with more directories, all of them shallow. *)
Definition shallow_ext (fs1 fs : FS) : Prop :=
  fs_files fs1 = fs_files fs /\
  (forall p, p ∈ fs_dirs fs -> p ∈ fs_dirs fs1) /\
  (forall p, p ∈ fs_dirs fs1 -> p ∈ fs_dirs fs \/ shallow p = true).

(** The lines that a run prints, whether it is a dry run or not. *)
Definition dir_line (dir_name : string) : string :=
  "  " +:+ Pth.str (Pth.div TARGET_DIR dir_name).

Definition file_lines (mappings : list FileMapping) : list string :=
  concat (map (fun m => [ "  " +:+ Pth.str (old_path m);
                          "    -> " +:+ Pth.str (new_path m) ]) mappings).

Definition progress_lines (mappings : list FileMapping) : list string :=
  [ "=== Doc Migration Script ===" +:+ NL; "Creating target directories..." ]
  ++ map dir_line TARGET_DIRS
  ++ [ ""; "Building file mapping...";
       "  Found " +:+ pretty (length mappings) +:+ " files to migrate" +:+ NL ]
  ++ file_lines mappings
  ++ [ NL +:+ "=== Summary ===" ].

(** The last lines of a dry run, and of a run that executes and ends with
    the file system [fs]. *)
Definition dry_summary : list string :=
  [ "Dry run complete. No files were modified.";
    "Run without --dry-run to execute migration." ].

Definition exec_summary (fs : FS) : list string :=
  [ "Migrated files: " +:+ pretty (length (Fs.rglob_md fs TARGET_DIR));
    "Mapping file: " +:+ Pth.str MAPPING_FILE ].

(** The path lies in the documentation tree of a source repository. *)
Definition from_source (p : Path) : bool :=
  existsb (fun src => Pth.under src.1 p) SOURCES.

(** A computation that changes nothing in the file system, however it
    ends. *)
Definition fs_preserving {A : Type} (c : M A) : Prop :=
  forall w, w_fs (c w).1 = w_fs w.

(** A computation that only adds lines to the console. *)
Definition console_appending {A : Type} (c : M A) : Prop :=
  forall w, exists out, w_console (c w).1 = w_console w ++ out.

(** A computation whose first printed lines are [lines]. *)
Definition console_starting {A : Type} (lines : list string) (c : M A) : Prop :=
  forall w, exists rest, w_console (c w).1 = w_console w ++ lines ++ rest.

(** The first line of a dry run. *)
Definition dry_run_banner : string := "=== DRY RUN MODE ===" +:+ NL.

(** The first line of a run that executes. *)
Definition script_banner : string := "=== Doc Migration Script ===" +:+ NL.

(** ** Sample worlds *)

(** [git log] answers 2024-03-15 for every file. *)
Definition env_march : Env :=
  mkEnv (fun _ => Some ("2024-03-15" +:+ String StrWs.nl ""))
        (fun _ => None) "20261104" "Wed Nov  4 10:00:00 UTC 2026".

Definition bug_report_path : Path :=
  (source_of "flovyn-server").1 ++ ["bugs"; "001-bug-report.md"].

(** The filename table of the example of the specification. *)
Definition table_foo : Table := {[ "001-foo.md" := "20240102_foo.md" ]}.

(** [git log] answers 2024-01-02 for every file. *)
Definition env_jan : Env :=
  mkEnv (fun _ => Some ("2024-01-02" +:+ String StrWs.nl ""))
        (fun _ => None) "20261104" "Wed Nov  4 10:00:00 UTC 2026".

Definition docs_of (repo : string) : Path := (source_of repo).1.

(** A file system that holds the given files and their directories. *)
Definition fs_with (files : list (Path * string)) : FS :=
  mkFS (list_to_set (concat (map (fun f => Pth.prefixes (Pth.parent f.1)) files)))
       (list_to_map files).

(** Two repositories, one design note each; the two names differ but
    normalize to the same name. *)
Definition fs_two_repos : FS :=
  fs_with [ (docs_of "flovyn-server" ++ ["design"; "001-foo.md"], "server");
            (docs_of "flovyn-app" ++ ["design"; "002-foo.md"], "app") ].

(** One repository with three design notes that normalize to the same
    name. *)
Definition fs_three_notes : FS :=
  fs_with [ (docs_of "flovyn-server" ++ ["design"; "001-foo.md"], "one");
            (docs_of "flovyn-server" ++ ["design"; "002-foo.md"], "two");
            (docs_of "flovyn-server" ++ ["design"; "003-foo.md"], "three") ].

(** The mappings that the path mapper gives for [fs_two_repos]. *)
Definition two_repos_first : FileMapping :=
  mkFileMapping (docs_of "flovyn-server" ++ ["design"; "001-foo.md"])
                (TARGET_DIR ++ ["design"; "20240102_foo.md"])
                "001-foo.md" "20240102_foo.md" "flovyn-server".

Definition two_repos_second : FileMapping :=
  mkFileMapping (docs_of "flovyn-app" ++ ["design"; "002-foo.md"])
                (TARGET_DIR ++ ["design"; "20240102_foo_flovyn-app.md"])
                "002-foo.md" "20240102_foo_flovyn-app.md" "flovyn-app".

(** A world with an empty file system and nothing printed. *)
Definition empty_world : World := mkWorld (mkFS ∅ ∅) [].

(** A world whose file system is [fs_three_notes]. *)
Definition three_notes_world : World := mkWorld fs_three_notes [].


(** ** Further vocabulary *)

(** The date is made of exactly eight digits, as [%Y%m%d] and the dates
    of [git log --format=%cs] without their hyphens are. *)
Definition eight_digits (date : string) : Prop :=
  digits_then 8 "_" (date +:+ "_") = true.

(** [git log --follow --diff-filter=A] answers with two dates, the most
    recent one first. *)
Definition env_two_dates : Env :=
  mkEnv (fun _ => Some ("2024-03-15" +:+ String StrWs.nl "2024-01-02"
                        +:+ String StrWs.nl ""))
        (fun _ => None) "20261104" "".

(** The files that the path mapper discovers, in the order in which it
    meets them: for every source that exists, what [rglob] finds there. *)
Definition discovered (fs : FS) : list Path :=
  concat (map (fun src => if Fs.exists_ fs src.1 then Fs.rglob_md fs src.1 else [])
              SOURCES).

(** The names of the source repositories. *)
Definition source_repos : list string := map snd SOURCES.

(** What every mapping of the path mapper satisfies by itself. *)
Definition well_formed_mapping (m : FileMapping) : Prop :=
  In (source_repo m) source_repos /\
  Pth.under (source_of (source_repo m)).1 (old_path m) = true /\
  old_filename m = Pth.name (old_path m) /\
  Str.endswith (old_filename m) ".md" = true /\
  target_for (parts_of m) (new_filename m) = Some (new_path m) /\
  Str.endswith (new_filename m) ".md" = true.

(** What follows the first [c] in [s]; nothing when there is none. *)
Fixpoint after_first (c : ascii) (s : string) : string :=
  match s with
  | EmptyString => EmptyString
  | String d s' => if Ascii.eqb c d then s' else after_first c s'
  end.

(** [s.find(p)], as an option: the index of the first occurrence. *)
Fixpoint str_find (s p : string) : option nat :=
  if Str.startswith s p then Some 0
  else match s with
       | EmptyString => None
       | String _ s' => S <$> str_find s' p
       end.

(** A computation that keeps every directory and every file, and whose
    changes to files all lie below the target directory. *)
Definition target_only {A : Type} (c : M A) : Prop :=
  forall w,
    (forall p, Pth.under TARGET_DIR p = false ->
               fs_files (w_fs (c w).1) !! p = fs_files (w_fs w) !! p) /\
    (forall p, p ∈ fs_dirs (w_fs w) -> p ∈ fs_dirs (w_fs (c w).1)) /\
    (forall p, is_Some (fs_files (w_fs w) !! p) ->
               is_Some (fs_files (w_fs (c w).1) !! p)).

(** [s'] is what is left of [s] after some of its characters. *)
Definition is_suffix (s' s : string) : Prop := exists p, s = p +:+ s'.

(** What the star of [[^/]+] runs: one character other than the slash. *)
Definition step_no_slash {A : Type} (b : bool) (s : string) (g : Re.groups)
    (k : bool -> string -> Re.groups -> option A) : option A :=
  Re.run (Re.Cls (Re.none_of "/")) b s g k.

(** What [md_link_pattern] finds in a hyperlink to a design document of
    flovyn-server: the whole hyperlink, its label and its target. *)
Definition foo_hyperlink : Re.Match :=
  Re.mkMatch "[plan](flovyn-server/.dev/docs/design/001-foo.md)"
    [(2, "flovyn-server/.dev/docs/design/001-foo.md"); (1, "plan")] "".

(** * Properties *)

(** ** Strings *)

Module StrFacts.

Lemma app_nil (t : string) : "" +:+ t = t.
Proof. reflexivity. Qed.

Lemma app_cons (c : ascii) (s t : string) : String c s +:+ t = String c (s +:+ t).
Proof. reflexivity. Qed.

Lemma app_nil_r (s : string) : s +:+ "" = s.
Proof. induction s as [|c s IH]; [reflexivity|]. rewrite app_cons, IH. reflexivity. Qed.

Lemma app_assoc (s t u : string) : (s +:+ t) +:+ u = s +:+ (t +:+ u).
Proof.
  induction s as [|c s IH]; [reflexivity|].
  rewrite !app_cons, IH. reflexivity.
Qed.

Lemma len_app (s t : string) : Str.len (s +:+ t) = Str.len s + Str.len t.
Proof.
  induction s as [|c s IH]; [reflexivity|].
  rewrite app_cons. unfold Str.len in *. simpl. rewrite IH. reflexivity.
Qed.

Lemma drop_app (s t : string) : Str.drop (Str.len s) (s +:+ t) = t.
Proof.
  induction s as [|c s IH]; [reflexivity|].
  rewrite app_cons. exact IH.
Qed.

Lemma take_app (s t : string) : Str.take (Str.len s) (s +:+ t) = s.
Proof.
  induction s as [|c s IH]; [reflexivity|].
  rewrite app_cons. unfold Str.len in *. simpl. rewrite IH. reflexivity.
Qed.

Lemma take_drop (n : nat) (s : string) : Str.take n s +:+ Str.drop n s = s.
Proof.
  revert s. induction n as [|n IH]; intros s; [reflexivity|].
  destruct s as [|c s]; [reflexivity|].
  simpl. rewrite app_cons, IH. reflexivity.
Qed.

Lemma eqb_refl (s : string) : String.eqb s s = true.
Proof. apply String.eqb_eq. reflexivity. Qed.

(** A string with [p] appended ends with [p]. *)
Lemma endswith_app (s p : string) : Str.endswith (s +:+ p) p = true.
Proof.
  unfold Str.endswith. rewrite len_app.
  replace (Str.len s + Str.len p - Str.len p) with (Str.len s) by lia.
  rewrite drop_app, eqb_refl.
  rewrite andb_true_r. apply Nat.leb_le. lia.
Qed.

(** A string that ends with [p] is what precedes [p], followed by [p]. *)
Lemma endswith_split (s p : string) :
  Str.endswith s p = true -> s = Str.drop_last (Str.len p) s +:+ p.
Proof.
  unfold Str.endswith, Str.drop_last. intros H.
  apply andb_true_iff in H as [_ H]. apply String.eqb_eq in H.
  pose proof (take_drop (Str.len s - Str.len p) s) as E.
  rewrite H in E. symmetry. exact E.
Qed.

Lemma drop_last_app (s p : string) : Str.drop_last (Str.len p) (s +:+ p) = s.
Proof.
  unfold Str.drop_last. rewrite len_app.
  replace (Str.len s + Str.len p - Str.len p) with (Str.len s) by lia.
  apply take_app.
Qed.

Lemma has_char_app (c : ascii) (s t : string) :
  Str.has_char c (s +:+ t) = Str.has_char c s || Str.has_char c t.
Proof.
  induction s as [|d s IH]; [reflexivity|].
  rewrite app_cons. simpl. rewrite IH. apply orb_assoc.
Qed.

Lemma startswith_cons_char (c d : ascii) (s : string) :
  Str.startswith (String d s) (String c "") = Ascii.eqb c d.
Proof. simpl. apply andb_true_r. Qed.

(** Replacing a character leaves none of it, when the replacement itself
    has none. *)
Lemma replace_char_gone (c : ascii) (new s : string) :
  Str.has_char c new = false ->
  Str.has_char c (Str.replace (String c "") new s) = false.
Proof.
  intros Hnew. unfold Str.replace.
  induction s as [|d s IH]; [reflexivity|].
  cbn [Str.replace_from]. rewrite startswith_cons_char.
  destruct (Ascii.eqb c d) eqn:E.
  - rewrite has_char_app, Hnew. exact IH.
  - cbn [Str.has_char]. rewrite E. exact IH.
Qed.

(** Replacing a character that does not occur changes nothing. *)
Lemma replace_char_absent (c : ascii) (new s : string) :
  Str.has_char c s = false -> Str.replace (String c "") new s = s.
Proof.
  unfold Str.replace.
  induction s as [|d s IH]; [reflexivity|].
  cbn [Str.replace_from Str.has_char]. rewrite startswith_cons_char.
  intros H. apply orb_false_iff in H as [E H].
  rewrite E, (IH H). reflexivity.
Qed.

End StrFacts.

(** ** The matcher *)

Module ReFacts.

Import Re.

(** Whatever the matcher returns was returned by its continuation. *)
Lemma star_loop_result {A : Type}
    (step : bool -> string -> groups ->
            (bool -> string -> groups -> option A) -> option A)
    (k : bool -> string -> groups -> option A) :
  (forall b s g k' x, step b s g k' = Some x ->
     exists b' s' g', k' b' s' g' = Some x) ->
  forall fuel b s g x, star_loop step k fuel b s g = Some x ->
    exists b' s' g', k b' s' g' = Some x.
Proof.
  intros Hstep fuel. induction fuel as [|fuel IH]; intros b s g x H.
  - simpl in H. eauto.
  - simpl in H.
    destruct (step b s g _) as [y|] eqn:E.
    + inversion H; subst y. apply Hstep in E as (b' & s' & g' & E).
      destruct (Str.len s' <? Str.len s); eauto.
    + eauto.
Qed.

Lemma run_result {A : Type} (r : regex) :
  forall b s g (k : bool -> string -> groups -> option A) x,
    run r b s g k = Some x -> exists b' s' g', k b' s' g' = Some x.
Proof.
  induction r as [| |c|p|r1 IH1 r2 IH2|r1 IH1 r2 IH2|r1 IH1|i r1 IH1];
    intros b s g k x H; simpl in H.
  - eauto.
  - destruct b; [eauto | discriminate].
  - destruct s as [|d s']; [discriminate|].
    destruct (Ascii.eqb c d); [eauto | discriminate].
  - destruct s as [|d s']; [discriminate|].
    destruct (p d); [eauto | discriminate].
  - apply IH1 in H as (b' & s' & g' & H). eapply IH2. exact H.
  - destruct (run r1 b s g k) as [y|] eqn:E.
    + inversion H; subst y. eapply IH1. exact E.
    + eapply IH2. exact H.
  - eapply star_loop_result; [|exact H].
    intros b0 s0 g0 k' x0 H0. eapply IH1. exact H0.
  - apply IH1 in H as (b' & s' & g' & H). eauto.
Qed.

Lemma take_of_len (n : nat) (s : string) :
  Str.take n s = Str.take (Str.len (Str.take n s)) s.
Proof.
  revert s. induction n as [|n IH]; intros s; [reflexivity|].
  destruct s as [|c s]; [reflexivity|].
  simpl. f_equal. apply IH.
Qed.

(** The text of a match is the start of what was left of the subject. *)
Lemma match_here_text (r : regex) (ma b : bool) (s : string) (m : Match) :
  match_here r ma b s = Some m -> m_text m = Str.take (Str.len (m_text m)) s.
Proof.
  unfold match_here. intros H.
  apply run_result in H as (b' & s' & g' & H). cbn beta zeta in H.
  destruct (ma && _); [discriminate|].
  inversion H; subst m. cbn [m_text]. apply take_of_len.
Qed.

(** A match found while the matcher must advance is not empty. *)
Lemma match_here_advance (r : regex) (b : bool) (s : string) (m : Match) :
  match_here r true b s = Some m -> Str.len (m_text m) <> 0.
Proof.
  unfold match_here. intros H.
  apply run_result in H as (b' & s' & g' & H). cbn beta zeta in H.
  rewrite andb_true_l in H.
  destruct (Str.len _ =? 0) eqn:E; [discriminate|].
  inversion H; subst m. apply Nat.eqb_neq in E. exact E.
Qed.

Lemma len_0 (s : string) : Str.len s = 0 -> s = "".
Proof. destruct s; [reflexivity | discriminate]. Qed.

Lemma drop_nil (n : nat) : Str.drop n "" = "".
Proof. destruct n; reflexivity. Qed.

(** [sub] changes nothing when the replacement of every match it finds is
    the text of the match. *)
Lemma sub_from_id (r : regex) (repl : Match -> string) :
  forall s skip b,
    (forall m, In m (finditer_from r skip b s) -> repl m = m_text m) ->
    sub_from r repl skip b s = Str.drop skip s.
Proof.
  induction s as [|c s IH]; intros skip b H.
  - rewrite drop_nil. simpl in *.
    destruct (match_here r false b "") as [m|] eqn:E; [|reflexivity].
    rewrite (H m) by (left; reflexivity).
    rewrite (match_here_text _ _ _ _ _ E).
    destruct (Str.len (m_text m)); reflexivity.
  - destruct skip as [|k]; [|apply IH; exact H].
    cbn [sub_from finditer_from Str.drop] in *.
    destruct (match_here r false b (String c s)) as [m|] eqn:E.
    + pose proof (match_here_text _ _ _ _ _ E) as Et.
      destruct (Str.len (m_text m)) as [|n] eqn:L.
      * apply len_0 in L.
        destruct (match_here r true b (String c s)) as [m'|] eqn:E'.
        -- pose proof (match_here_text _ _ _ _ _ E') as Et'.
           pose proof (match_here_advance _ _ _ _ E') as Ea.
           destruct (Str.len (m_text m')) as [|n'] eqn:L'; [congruence|].
           rewrite (H m) by (left; reflexivity).
           rewrite (H m') by (right; left; reflexivity).
           rewrite L, Et'. cbn [Str.take]. rewrite StrFacts.app_nil, StrFacts.app_cons.
           rewrite IH.
           ++ replace (S n' - 1) with n' by lia. rewrite StrFacts.take_drop. reflexivity.
           ++ intros m0 Hm0. apply H. right; right; exact Hm0.
        -- rewrite (H m) by (left; reflexivity). rewrite L, StrFacts.app_nil.
           rewrite IH; [reflexivity|].
           intros m0 Hm0. apply H. right; exact Hm0.
      * rewrite (H m) by (left; reflexivity).
        rewrite Et. cbn [Str.take]. rewrite StrFacts.app_cons.
        rewrite IH.
        -- rewrite StrFacts.take_drop. reflexivity.
        -- intros m0 Hm0. apply H. right; exact Hm0.
    + rewrite IH; [reflexivity|]. exact H.
Qed.

Lemma sub_id (r : regex) (repl : Match -> string) (s : string) :
  (forall m, In m (finditer r s) -> repl m = m_text m) -> sub r repl s = s.
Proof. intros H. unfold sub. rewrite sub_from_id by exact H. reflexivity. Qed.

(** Where the pattern matches at no position, [finditer] finds nothing. *)
Lemma finditer_from_nil (r : regex) :
  forall s b, search_from r b s = false -> finditer_from r 0 b s = [].
Proof.
  induction s as [|c s IH]; intros b H; simpl in *.
  - destruct (match_here r false b ""); [discriminate | reflexivity].
  - destruct (match_here r false b (String c s)); [discriminate|].
    apply IH. exact H.
Qed.

(** So [sub] leaves a subject without a match as it is. *)
Lemma sub_no_match (r : regex) (repl : Match -> string) (s : string) :
  search r s = false -> sub r repl s = s.
Proof.
  intros H. apply sub_id. unfold finditer.
  rewrite finditer_from_nil by exact H. intros m [].
Qed.

End ReFacts.

(** ** The filename normalizer *)

Section Normalizer.

Variable env : Env.

Lemma matches_date_prefix (s : string) :
  Re.matches date_prefix_pattern s = digits_then 8 "_" s.
Proof.
  unfold Re.matches, Re.match_here, date_prefix_pattern.
  cbn [Re.run Re.Times].
  do 9 (destruct s as [|? s]; [cbn [digits_then]; rewrite ?andb_false_r; reflexivity|];
        cbn [digits_then]; try (destruct (Re.digit _); [|reflexivity]);
        rewrite ?andb_true_l).
  destruct (Ascii.eqb _ _); reflexivity.
Qed.

Lemma digits_then_before_md (n : nat) :
  forall r, digits_then n "_" (r +:+ ".md") = true -> digits_then n "_" r = true.
Proof.
  induction n as [|n IH]; intros [|d r] H.
  - discriminate.
  - exact H.
  - discriminate.
  - rewrite StrFacts.app_cons in H. cbn [digits_then] in *.
    apply andb_true_iff in H as [Hd H]. rewrite Hd. apply IH. exact H.
Qed.

(** The ordinal pattern needs a hyphen. *)
Lemma sequence_needs_hyphen (ma b : bool) (s : string) :
  no_hyphen s -> Re.match_here sequence_pattern ma b s = None.
Proof.
  unfold no_hyphen, Re.match_here, sequence_pattern. intros H.
  cbn [Re.run Re.Times].
  destruct s as [|c1 s]; [reflexivity|]. destruct (Ascii.eqb _ c1); [|reflexivity].
  do 3 (destruct s as [|? s]; [reflexivity|]; destruct (Re.digit _); [|reflexivity]).
  destruct s as [|c5 s]; [reflexivity|].
  cbn [Str.has_char] in H.
  do 4 (apply orb_false_iff in H as [_ H]).
  apply orb_false_iff in H as [H _].
  rewrite H. reflexivity.
Qed.

Lemma no_hyphen_no_ordinal (s : string) : no_hyphen s -> no_ordinal s.
Proof.
  unfold no_ordinal, Re.search. generalize true as b.
  induction s as [|c s IH]; intros b H; cbn [Re.search_from].
  - rewrite sequence_needs_hyphen by exact H. reflexivity.
  - rewrite sequence_needs_hyphen by exact H.
    apply IH. unfold no_hyphen in *. cbn [Str.has_char] in H.
    apply orb_false_iff in H as [_ H]. exact H.
Qed.

(** Without a hyphen, the last two rewriting steps change nothing. *)
Lemma cleanup_without_hyphen (s : string) :
  no_hyphen s ->
  Str.replace "-" "_" (Re.sub sequence_pattern (fun _ => "_") s) = s.
Proof.
  intros H. rewrite ReFacts.sub_no_match by (apply no_hyphen_no_ordinal; exact H).
  apply StrFacts.replace_char_absent. exact H.
Qed.

End Normalizer.

Section NormalizerClaims.

Variable env : Env.

(** X2: the date that [get_git_date] returns has no hyphen, as long as
    the date of today has none. *)
Lemma get_git_date_no_hyphen (file_path : Path) :
  no_hyphen (today env) -> no_hyphen (get_git_date env file_path).
Proof.
  intros Ht. unfold get_git_date, no_hyphen.
  destruct (git_log_added env file_path) as [out1|]; [|exact Ht].
  destruct (StrWs.nonempty _).
  - apply StrFacts.replace_char_gone. reflexivity.
  - destruct (git_log_last env file_path) as [out2|]; [|exact Ht].
    destruct (StrWs.nonempty _); [|exact Ht].
    apply StrFacts.replace_char_gone. reflexivity.
Qed.

(** C6: with the resolved date 20240315, [001-bug-report.md] is normalized
    to [20240315_bug_report.md]: the extension is stripped, the date is
    prepended as the name has no date prefix, the ordinal [_001-] becomes
    one underscore, the hyphens become underscores, and the extension is
    put back. *)
Theorem C6_normalize_bug_report (source_file : Path) :
  get_git_date env source_file = "20240315" ->
  strip_md "001-bug-report.md" = "001-bug-report" /\
  add_date env source_file "001-bug-report" = "20240315_001-bug-report" /\
  Re.sub sequence_pattern (fun _ => "_") "20240315_001-bug-report"
    = "20240315_bug-report" /\
  Str.replace "-" "_" "20240315_bug-report" = "20240315_bug_report" /\
  normalize_filename env "001-bug-report.md" source_file
    = "20240315_bug_report.md".
Proof.
  intros Hdate.
  assert (Hadd : add_date env source_file "001-bug-report"
                 = "20240315_001-bug-report").
  { unfold add_date. rewrite Hdate. reflexivity. }
  repeat split; try reflexivity; try exact Hadd.
  unfold normalize_filename.
  change (strip_md "001-bug-report.md") with "001-bug-report".
  rewrite Hadd. reflexivity.
Qed.

(** C7: normalization leaves an already normalized name as it is: a name
    that starts with eight digits and an underscore, ends in [.md], and has
    no [_NNN-] ordinal and no hyphen. *)
Theorem C7_normalize_idempotent (f : string) (source_file : Path) :
  dated_md f = true -> no_ordinal f -> no_hyphen f ->
  normalize_filename env f source_file = f.
Proof.
  unfold dated_md. intros Hd _ Hh.
  apply andb_true_iff in Hd as [Hdate Hmd].
  pose proof (StrFacts.endswith_split _ _ Hmd) as Hf.
  change (Str.len ".md") with 3 in Hf.
  unfold normalize_filename, strip_md. rewrite Hmd.
  set (r := Str.drop_last 3 f) in *.
  assert (Hr : Re.matches date_prefix_pattern r = true).
  { rewrite matches_date_prefix in *. apply digits_then_before_md.
    rewrite <- Hf. exact Hdate. }
  unfold add_date. rewrite Hr. cbn [negb].
  rewrite cleanup_without_hyphen; [symmetry; exact Hf|].
  unfold no_hyphen in *. rewrite Hf, StrFacts.has_char_app in Hh.
  apply orb_false_iff in Hh as [Hh _]. exact Hh.
Qed.

(** C10: for every input string, with or without the extension,
    [normalize_filename] returns a name that ends in [.md] and holds no
    hyphen; the name [notes], which has no extension, becomes the date,
    an underscore and [notes.md]. *)
Theorem C10_normalize_any_string :
  (forall (filename : string) (source_file : Path),
     Str.endswith (normalize_filename env filename source_file) ".md" = true /\
     no_hyphen (normalize_filename env filename source_file)) /\
  (forall source_file : Path,
     no_hyphen (get_git_date env source_file) ->
     normalize_filename env "notes" source_file
       = get_git_date env source_file +:+ "_notes.md").
Proof.
  split.
  - intros filename source_file. unfold normalize_filename. split.
    + apply StrFacts.endswith_app.
    + unfold no_hyphen. rewrite StrFacts.has_char_app.
      rewrite StrFacts.replace_char_gone by reflexivity. reflexivity.
  - intros source_file Hd. unfold normalize_filename.
    change (strip_md "notes") with "notes".
    change (add_date env source_file "notes")
      with (get_git_date env source_file +:+ "_" +:+ "notes").
    rewrite cleanup_without_hyphen.
    + rewrite !StrFacts.app_assoc. reflexivity.
    + unfold no_hyphen in *. rewrite StrFacts.has_char_app, Hd. reflexivity.
Qed.

End NormalizerClaims.

Lemma C6_witness :
  get_git_date env_march bug_report_path = "20240315" /\
  normalize_filename env_march "001-bug-report.md" bug_report_path
    = "20240315_bug_report.md".
Proof.
  split; [reflexivity|].
  apply (C6_normalize_bug_report env_march bug_report_path). reflexivity.
Defined.

Lemma C7_witness :
  dated_md "20240315_bug_report.md" = true /\
  normalize_filename env_march "20240315_bug_report.md" bug_report_path
    = "20240315_bug_report.md".
Proof.
  split; [reflexivity|].
  apply (C7_normalize_idempotent env_march "20240315_bug_report.md" bug_report_path);
    reflexivity.
Defined.

Lemma C10_witness :
  no_hyphen (get_git_date env_march bug_report_path) /\
  normalize_filename env_march "notes" bug_report_path = "20240315_notes.md".
Proof.
  split; [reflexivity|].
  apply (proj2 (C10_normalize_any_string env_march) bug_report_path). reflexivity.
Defined.

(** ** The code-reference normalizer *)

Module CodeRef.

Import Re.

Lemma step_dotdot {A : Type} (b : bool) (s1 : string) (g : groups)
    (k : bool -> string -> groups -> option A) :
  step b ("../" +:+ s1) g k
  = k false s1 ((1, Str.take (Str.len ("../" +:+ s1) - Str.len s1) ("../" +:+ s1)) :: g).
Proof. reflexivity. Qed.

Lemma step_fail {A : Type} (b : bool) (s : string) (g : groups)
    (k : bool -> string -> groups -> option A) :
  Str.startswith s "../" = false -> step b s g k = None.
Proof.
  unfold step. cbn [run Lit Str.startswith]. intros H.
  destruct s as [|c1 s]; [reflexivity|]. destruct (Ascii.eqb _ c1); [|reflexivity].
  destruct s as [|c2 s]; [reflexivity|]. destruct (Ascii.eqb _ c2); [|reflexivity].
  destruct s as [|c3 s]; [reflexivity|]. destruct (Ascii.eqb _ c3); [|reflexivity].
  discriminate.
Qed.

Lemma len_dotdots (n : nat) : Str.len (dotdots n) = 3 * n.
Proof.
  induction n as [|n IH]; [reflexivity|].
  cbn [dotdots]. rewrite StrFacts.len_app, IH. change (Str.len "../") with 3. lia.
Qed.

(** The star takes every leading [../] and hands the rest to its
    continuation, whenever the continuation accepts it. *)
Lemma star_takes_dotdots {A : Type} (rest : string) :
  Str.startswith rest "../" = false ->
  forall n fuel b g, n <= fuel ->
    exists b' g', forall k : bool -> string -> groups -> option A,
      k b' rest g' <> None ->
      star_loop step k fuel b (dotdots n +:+ rest) g = k b' rest g'.
Proof.
  intros Hrest. induction n as [|n IH]; intros fuel b g Hfuel.
  - exists b, g. intros k _. cbn [dotdots]. rewrite StrFacts.app_nil.
    destruct fuel as [|fuel]; [reflexivity|].
    cbn [star_loop]. rewrite step_fail by exact Hrest. reflexivity.
  - destruct fuel as [|fuel]; [lia|].
    cbn [dotdots]. rewrite StrFacts.app_assoc.
    set (s1 := dotdots n +:+ rest).
    destruct (IH fuel false
                ((1, Str.take (Str.len ("../" +:+ s1) - Str.len s1) ("../" +:+ s1)) :: g))
      as (b' & g' & Hk); [lia|].
    exists b', g'. intros k Hne.
    cbn [star_loop]. rewrite step_dotdot.
    replace (Str.len s1 <? Str.len ("../" +:+ s1)) with true.
    + fold s1 in Hk. rewrite (Hk k Hne).
      destruct (k b' rest g'); [reflexivity | congruence].
    + symmetry. apply Nat.ltb_lt. rewrite StrFacts.len_app.
      change (Str.len "../") with 3. lia.
Qed.

(** At the start of the subject the pattern matches all the leading
    [../] of a reference that has at least one. *)
Lemma match_parent_dirs (n : nat) (rest : string) :
  Str.startswith rest "../" = false ->
  exists m, match_here parent_dirs_pattern false true (dotdots (S n) +:+ rest) = Some m
            /\ m_text m = dotdots (S n).
Proof.
  intros Hrest.
  set (s := dotdots (S n) +:+ rest).
  set (k0 := fun (_ : bool) (s' : string) (g : groups) =>
               let m := mkMatch (Str.take (Str.len s - Str.len s') s) g s' in
               if false && (Str.len (m_text m) =? 0) then None else Some m).
  assert (Hrun : match_here parent_dirs_pattern false true s
                 = step true s []
                     (fun b' s' g' => star_loop step k0 (Str.len s') b' s' g')).
  { reflexivity. }
  rewrite Hrun. unfold s at 1. cbn [dotdots]. rewrite StrFacts.app_assoc.
  rewrite step_dotdot.
  destruct (star_takes_dotdots (A := Match) rest Hrest n
              (Str.len (dotdots n +:+ rest)) false
              [(1, Str.take (Str.len ("../" +:+ dotdots n +:+ rest)
                             - Str.len (dotdots n +:+ rest))
                            ("../" +:+ dotdots n +:+ rest))])
    as (b' & g' & Hk).
  { rewrite StrFacts.len_app, len_dotdots. lia. }
  rewrite (Hk k0) by discriminate.
  eexists. split; [reflexivity|]. cbn [m_text].
  unfold s. rewrite StrFacts.len_app.
  replace (Str.len (dotdots (S n)) + Str.len rest - Str.len rest)
    with (Str.len (dotdots (S n))) by lia.
  apply StrFacts.take_app.
Qed.

(** Away from the start of the subject the pattern matches nowhere. *)
Lemma parent_dirs_only_at_start (s : string) :
  search_from parent_dirs_pattern false s = false.
Proof. induction s as [|c s IH]; [reflexivity | exact IH]. Qed.

Lemma sub_from_skip (r : regex) (repl : Match -> string) (p t : string) :
  sub_from r repl (Str.len p) false (p +:+ t) = sub_from r repl 0 false t.
Proof.
  induction p as [|c p IH]; [reflexivity|].
  rewrite StrFacts.app_cons. exact IH.
Qed.

(** [re.sub(r"^(\.\./)+", "", ref)] removes all the leading [../]. *)
Lemma sub_parent_dirs (n : nat) (rest : string) :
  Str.startswith rest "../" = false ->
  sub parent_dirs_pattern (fun _ => "") (dotdots (S n) +:+ rest) = rest.
Proof.
  intros Hrest.
  destruct (match_parent_dirs n rest Hrest) as (m & Hm & Ht).
  unfold sub. cbn [dotdots] in *. rewrite !StrFacts.app_assoc in *.
  change ("../" +:+ dotdots n +:+ rest)
    with (String "." ("./" +:+ dotdots n +:+ rest)) in *.
  cbn [sub_from]. rewrite Hm, Ht.
  change (Str.len ("../" +:+ dotdots n)) with (S (Str.len ("./" +:+ dotdots n))).
  cbv beta iota. rewrite StrFacts.app_nil, <- StrFacts.app_assoc, sub_from_skip.
  rewrite (ReFacts.sub_from_id parent_dirs_pattern (fun _ => "") rest 0 false).
  - reflexivity.
  - rewrite ReFacts.finditer_from_nil by apply parent_dirs_only_at_start.
    intros m0 [].
Qed.

End CodeRef.

Section CodeRefClaims.

Variable origin : string.

Lemma startswith_dot_dotdot (ref : string) :
  Str.startswith ref "." = false -> Str.startswith ref ".." = false.
Proof.
  destruct ref as [|c ref]; [reflexivity|].
  cbn [Str.startswith]. rewrite andb_true_r. intros ->. reflexivity.
Qed.

(** C5, as amended: a reference that starts with a known repository and a
    slash is left as it is, whatever the originating repository; a
    reference that starts with one or more [../] loses them all and gets
    the originating repository as its prefix; a reference with a slash and
    a recognized code extension that does not start with a dot gets the
    originating repository as its prefix when no earlier rule took it,
    that is, when it starts neither with a known repository nor with the
    workspace root; a reference under the workspace root loses that root
    instead. *)
Theorem C5_code_reference_rules :
  (forall ref, has_repo_prefix ref = true ->
     normalize_code_reference ref origin = ref) /\
  (forall n rest, Str.startswith rest "../" = false ->
     normalize_code_reference (dotdots (S n) +:+ rest) origin
       = origin +:+ "/" +:+ rest) /\
  (forall ref,
     has_repo_prefix ref = false ->
     Str.startswith ref (Pth.str WORKSPACE) = false ->
     Str.contains ref "/" = true ->
     Str.startswith ref "." = false ->
     in_code_extensions (OsPath.splitext ref).2 = true ->
     normalize_code_reference ref origin = origin +:+ "/" +:+ ref) /\
  (forall ref,
     has_repo_prefix ref = false ->
     Str.startswith ref (Pth.str WORKSPACE) = true ->
     normalize_code_reference ref origin
       = Str.lstrip "/" (Str.drop (Str.len (Pth.str WORKSPACE)) ref)) /\
  normalize_code_reference "sdk-kotlin/src/Main.kt" origin = "sdk-kotlin/src/Main.kt" /\
  normalize_code_reference "../../src/lib.rs" "sdk-rust" = "sdk-rust/src/lib.rs" /\
  normalize_code_reference "src/handler.rs" "flovyn-server"
    = "flovyn-server/src/handler.rs".
Proof.
  split; [|split; [|split; [|split; [|repeat split]]]].
  - intros ref H. unfold normalize_code_reference. rewrite H. reflexivity.
  - intros n rest Hrest. unfold normalize_code_reference.
    rewrite (CodeRef.sub_parent_dirs n rest Hrest).
    cbn [dotdots]. rewrite StrFacts.app_assoc.
    change ("../" +:+ dotdots n +:+ rest)
      with (String "." (String "." ("/" +:+ dotdots n +:+ rest))).
    reflexivity.
  - intros ref Hrepo Hws Hsep Hdot Hext. unfold normalize_code_reference.
    rewrite Hrepo. cbv zeta. rewrite Hws.
    rewrite (startswith_dot_dotdot ref Hdot), Hsep, Hdot, Hext. reflexivity.
  - intros ref Hrepo Hws. unfold normalize_code_reference.
    rewrite Hrepo. cbv zeta. rewrite Hws. reflexivity.
Qed.

End CodeRefClaims.

(** C5, as stated, fails: a reference under the workspace root has a
    slash, a recognized extension and no leading dot, and no known
    repository at its start, yet it is not prefixed with the originating
    repository: it loses the workspace root. *)
Lemma C5_counterexample :
  ~ (forall ref origin : string,
       has_repo_prefix ref = false ->
       Str.contains ref "/" = true ->
       Str.startswith ref "." = false ->
       in_code_extensions (OsPath.splitext ref).2 = true ->
       normalize_code_reference ref origin = origin +:+ "/" +:+ ref).
Proof.
  intros H.
  specialize (H "/home/ubuntu/workspaces/flovyn/sdk-rust/src/lib.rs" "flovyn-server"
                eq_refl eq_refl eq_refl eq_refl).
  vm_compute in H. discriminate H.
Qed.

Lemma C5_witness :
  has_repo_prefix "dev/docs/plan.md" = true /\
  normalize_code_reference "dev/docs/plan.md" "sdk-rust" = "dev/docs/plan.md" /\
  Str.startswith "src/a.py" "../" = false /\
  normalize_code_reference "../../../src/a.py" "flovyn-app" = "flovyn-app/src/a.py" /\
  has_repo_prefix "src/handler.rs" = false /\
  Str.startswith "src/handler.rs" (Pth.str WORKSPACE) = false /\
  Str.contains "src/handler.rs" "/" = true /\
  Str.startswith "src/handler.rs" "." = false /\
  in_code_extensions (OsPath.splitext "src/handler.rs").2 = true /\
  normalize_code_reference "src/handler.rs" "sdk-kotlin" = "sdk-kotlin/src/handler.rs" /\
  normalize_code_reference "/home/ubuntu/workspaces/flovyn/sdk-rust/src/lib.rs" "flovyn-app"
    = "sdk-rust/src/lib.rs".
Proof.
  pose proof (C5_code_reference_rules "sdk-rust") as (H1 & _).
  pose proof (C5_code_reference_rules "flovyn-app") as (_ & H2 & _ & H4 & _).
  pose proof (C5_code_reference_rules "sdk-kotlin") as (_ & _ & H3 & _).
  split; [reflexivity|].
  split; [apply (H1 "dev/docs/plan.md"); reflexivity|].
  split; [reflexivity|].
  split; [apply (H2 2 "src/a.py"); reflexivity|].
  do 5 (split; [reflexivity|]).
  split; [apply (H3 "src/handler.rs"); reflexivity|].
  apply (H4 "/home/ubuntu/workspaces/flovyn/sdk-rust/src/lib.rs"); reflexivity.
Defined.

(** ** The reference rewriter *)

Section RewriterClaims.

Variable filename_map : Table.
Variable source_repo : string.

(** C3: the bare path of an inline code reference that has a line number
    is not given the repository prefix.  [replace_code_ref] removes the
    line number before it looks at the extension, but hands the reference
    with its line number to [normalize_code_reference], whose own
    extension test then sees [.rs:12] and leaves the reference as it is;
    the same path without the line number gets the prefix. *)
Theorem C3_line_number_blocks_prefix :
  Re.finditer code_ref_pattern "`src/foo.rs:12`"
    = [Re.mkMatch "`src/foo.rs:12`" [(1, "src/foo.rs:12")] ""] /\
  (OsPath.splitext (Str.split_head ":" "src/foo.rs:12")).2 = ".rs" /\
  (OsPath.splitext "src/foo.rs:12").2 = ".rs:12" /\
  normalize_code_reference "src/foo.rs:12" source_repo = "src/foo.rs:12" /\
  rewritten "`src/foo.rs:12`" filename_map source_repo = "`src/foo.rs:12`" /\
  rewritten "`src/foo.rs`" filename_map "flovyn-server"
    = "`flovyn-server/src/foo.rs`".
Proof. repeat split; reflexivity. Qed.

(** C4: the example of the specification is rewritten as the claim says,
    but [normalize_doc_link] replaces every occurrence of the filename in
    the target, not only the last component: a directory whose name holds
    the filename is rewritten too. *)
Theorem C4_replaces_every_occurrence :
  rewritten "[See design](../.dev/docs/design/001-foo.md)" table_foo source_repo
    = "[See design](dev/docs/design/20240102_foo.md)" /\
  OsPath.basename "001-foo.md.d/001-foo.md" = "001-foo.md" /\
  normalize_doc_link "001-foo.md.d/001-foo.md" table_foo source_repo
    = "20240102_foo.md.d/20240102_foo.md" /\
  rewritten "[old](001-foo.md.d/001-foo.md)" table_foo source_repo
    = "[old](20240102_foo.md.d/20240102_foo.md)".
Proof. repeat split; vm_compute; reflexivity. Qed.

(** C8, as amended: the hyperlink rule returns every hyperlink whose
    target starts with [http://], [https://] or [#] as it found it, so the
    hyperlink pass leaves a text unchanged when all the hyperlinks that it
    finds there have such targets. *)
Theorem C8_hyperlink_rule_skips_urls :
  (forall m : Re.Match,
     is_url (Re.group m 2) = true ->
     replace_md_link filename_map source_repo m = Re.group m 0) /\
  (forall text : string,
     (forall m, In m (Re.finditer md_link_pattern text) ->
                is_url (Re.group m 2) = true) ->
     Re.sub md_link_pattern (replace_md_link filename_map source_repo) text = text).
Proof.
  assert (Hrule : forall m : Re.Match,
             is_url (Re.group m 2) = true ->
             replace_md_link filename_map source_repo m = Re.group m 0).
  { intros m H. unfold replace_md_link. rewrite H. reflexivity. }
  split; [exact Hrule|].
  intros text H. apply ReFacts.sub_id.
  intros m Hm. apply Hrule, H, Hm.
Qed.

End RewriterClaims.

(** C8, as stated, fails: the inline code pass runs after the hyperlink
    pass over the whole text, and rewrites a code span in the label of a
    hyperlink whose target is a web address. *)
Lemma C8_counterexample :
  ~ (forall (label target : string) (filename_map : Table) (source_repo : string),
       Str.has_char "]" label = false ->
       target <> "" ->
       Str.has_char ")" target = false ->
       is_url target = true ->
       rewritten (hyperlink label target) filename_map source_repo
         = hyperlink label target).
Proof.
  intros H.
  specialize (H "`src/main.rs`" "https://github.com/flovyn/x" ∅ "flovyn-server"
                eq_refl ltac:(discriminate) eq_refl eq_refl).
  vm_compute in H. discriminate H.
Qed.

Lemma C8_witness :
  is_url "https://example.com/a.md" = true /\
  replace_md_link table_foo "sdk-rust"
    (Re.mkMatch "[a](https://example.com/a.md)"
                [(2, "https://example.com/a.md"); (1, "a")] "")
    = "[a](https://example.com/a.md)" /\
  Re.sub md_link_pattern (replace_md_link table_foo "sdk-rust")
    "see [a](https://example.com/001-foo.md) and [b](#001-foo.md)"
    = "see [a](https://example.com/001-foo.md) and [b](#001-foo.md)".
Proof.
  pose proof (C8_hyperlink_rule_skips_urls table_foo "sdk-rust") as [H1 H2].
  split; [reflexivity|].
  split.
  - apply (H1 (Re.mkMatch "[a](https://example.com/a.md)"
                 [(2, "https://example.com/a.md"); (1, "a")] "")).
    reflexivity.
  - apply (H2 "see [a](https://example.com/001-foo.md) and [b](#001-foo.md)").
    intros m Hm. vm_compute in Hm.
    destruct Hm as [<-|[<-|[]]]; reflexivity.
Defined.

(** ** The path mapper *)

Section Mapper.

Variable env : Env.
Variable fs : FS.

Lemma table_of_snoc (ms : list FileMapping) (m : FileMapping) :
  table_of (ms ++ [m]) = <[old_filename m := new_filename m]> (table_of ms).
Proof. unfold table_of. rewrite fold_left_app. reflexivity. Qed.

Lemma mapper_inv_init : mapper_inv env fs ([], ∅).
Proof.
  split; [reflexivity|].
  intros l1 m l2 H. destruct l1; discriminate H.
Qed.

Lemma snoc_split (ms : list FileMapping) (x : FileMapping) l1 m l2 :
  ms ++ [x] = l1 ++ m :: l2 ->
  (l2 = [] /\ l1 = ms /\ m = x) \/ (exists l2', l2 = l2' ++ [x] /\ ms = l1 ++ m :: l2').
Proof.
  intros H. destruct l2 as [|y l2] using rev_ind.
  - left. apply app_inj_tail in H as [-> ->]. auto.
  - right. clear IHl2. exists l2.
    rewrite app_comm_cons, List.app_assoc in H.
    apply app_inj_tail in H as [-> ->]. auto.
Qed.

Lemma map_file_inv (repo : string) st f st' :
  mapper_inv env fs st ->
  map_file env fs (source_of repo).1 repo st f = Some st' ->
  mapper_inv env fs st'.
Proof.
  destruct st as [ms fm]. intros [Ht Hr] H. cbn [fst snd] in *.
  unfold map_file in H.
  set (n := normalize_filename env (Pth.name f) f) in *.
  set (parts := Pth.relative_to (source_of repo).1 f) in *.
  destruct (target_for parts n) as [target|] eqn:Et; [|discriminate].
  set (sfx := Str.drop_last 3 n +:+ "_" +:+ repo +:+ ".md") in *.
  destruct (conflicts fs ms target) eqn:Ec; inversion H; subst st'; clear H.
  - split; cbn [fst snd].
    + rewrite table_of_snoc, Ht. reflexivity.
    + intros l1 m l2 Hs. apply snoc_split in Hs as [(-> & -> & ->)|(l2' & -> & ->)].
      * split; [reflexivity|]. exists target.
        unfold tentative, parts_of, normalized, suffixed.
        cbn [old_filename old_path source_repo new_filename new_path].
        fold parts n. rewrite Et, Ec. auto.
      * eapply Hr. reflexivity.
  - split; cbn [fst snd].
    + rewrite table_of_snoc, Ht. reflexivity.
    + intros l1 m l2 Hs. apply snoc_split in Hs as [(-> & -> & ->)|(l2' & -> & ->)].
      * split; [reflexivity|]. exists target.
        unfold tentative, parts_of, normalized, suffixed.
        cbn [old_filename old_path source_repo new_filename new_path].
        fold parts n. rewrite Et, Ec. auto.
      * eapply Hr. reflexivity.
Qed.

Lemma map_files_inv (repo : string) files :
  forall st st',
    mapper_inv env fs st ->
    map_files env fs (source_of repo).1 repo st files = Some st' ->
    mapper_inv env fs st'.
Proof.
  induction files as [|f files IH]; intros st st' Hinv H; cbn [map_files] in H.
  - inversion H; subst. exact Hinv.
  - destruct (map_file _ _ _ _ st f) as [st1|] eqn:E; [|discriminate].
    eapply IH; [|exact H]. eapply map_file_inv; eassumption.
Qed.

Lemma map_sources_inv (repos : list string) :
  forall st st',
    mapper_inv env fs st ->
    map_sources env fs st (map source_of repos) = Some st' ->
    mapper_inv env fs st'.
Proof.
  induction repos as [|repo repos IH]; intros st st' Hinv H; cbn [map map_sources] in H.
  - inversion H; subst. exact Hinv.
  - change (source_of repo) with ((source_of repo).1, repo) in H. cbv iota beta in H.
    destruct (negb _).
    + eapply IH; eassumption.
    + destruct (map_files _ _ _ _ st _) as [st1|] eqn:E; [|discriminate].
      eapply IH; [|exact H]. eapply map_files_inv; eassumption.
Qed.

Lemma build_inv ms fm :
  build_filename_mapping env fs = Some (ms, fm) -> mapper_inv env fs (ms, fm).
Proof.
  unfold build_filename_mapping. intros H.
  eapply (map_sources_inv ["flovyn-server"; "flovyn-app"; "sdk-rust"; "sdk-kotlin"]);
    [apply mapper_inv_init | exact H].
Qed.

(** An entry of the table is the new filename of the last mapping that has
    the key as its original filename. *)
Lemma fold_insert_other (l : list FileMapping) (t : Table) (key : string) :
  (forall m', In m' l -> old_filename m' <> key) ->
  fold_left (fun t m => <[old_filename m := new_filename m]> t) l t !! key = t !! key.
Proof.
  revert t. induction l as [|x l IH]; intros t H; [reflexivity|].
  cbn [fold_left]. rewrite IH by (intros m' Hm'; apply H; right; exact Hm').
  apply lookup_insert_ne. apply H. left. reflexivity.
Qed.

Lemma table_of_last l1 m l2 :
  (forall m', In m' l2 -> old_filename m' <> old_filename m) ->
  table_of (l1 ++ m :: l2) !! old_filename m = Some (new_filename m).
Proof.
  intros H. unfold table_of. rewrite fold_left_app. cbn [fold_left].
  rewrite fold_insert_other by exact H. apply lookup_insert_eq.
Qed.

End Mapper.

Section MapperTotal.

Variable env : Env.
Variable fs : FS.

Lemma in_insert_sorted (p x : Path) (l : list Path) :
  In x (Pth.insert_sorted p l) -> x = p \/ In x l.
Proof.
  induction l as [|q l IH]; cbn [Pth.insert_sorted].
  - intros [<-|[]]. auto.
  - destruct (Pth.leb p q).
    + intros [<-|H]; auto.
    + intros [<-|H]; [right; left; reflexivity|].
      destruct (IH H) as [->|H']; [auto | right; right; exact H'].
Qed.

Lemma in_sorted (x : Path) (l : list Path) : In x (Pth.sorted l) -> In x l.
Proof.
  induction l as [|p l IH]; cbn [Pth.sorted fold_right]; [auto|].
  intros H. apply in_insert_sorted in H as [->|H]; [left; reflexivity|].
  right. apply IH. exact H.
Qed.

(** What [rglob] finds in a directory lies below it. *)
Lemma rglob_md_under (d f : Path) : In f (Fs.rglob_md fs d) -> Pth.under d f = true.
Proof.
  unfold Fs.rglob_md. intros H. apply in_sorted in H.
  apply list_elem_of_In, list_elem_of_filter in H as [H _].
  apply andb_true_iff in H as [H _]. exact H.
Qed.

Lemma under_relative (d f : Path) :
  Pth.under d f = true -> Pth.relative_to d f <> [].
Proof.
  revert f. induction d as [|x d IH]; intros [|y f] H; try discriminate.
  cbn [Pth.under] in H. apply andb_true_iff in H as [_ H].
  apply IH. exact H.
Qed.

Lemma target_for_some (parts : Path) (name : string) :
  parts <> [] -> is_Some (target_for parts name).
Proof.
  destruct parts as [|a [|b [|c parts]]]; [congruence|..]; intros _; cbn; eauto.
Qed.

Lemma map_files_total (d : Path) (repo : string) (files : list Path) :
  (forall f, In f files -> Pth.under d f = true) ->
  forall st, is_Some (map_files env fs d repo st files).
Proof.
  induction files as [|f files IH]; intros Hu st; cbn [map_files]; [eauto|].
  assert (Hf : is_Some (map_file env fs d repo st f)).
  { unfold map_file. destruct st as [ms fm].
    destruct (target_for_some (Pth.relative_to d f)
                (normalize_filename env (Pth.name f) f)) as [t ->].
    - apply under_relative, Hu. left. reflexivity.
    - destruct (conflicts fs ms t); eauto. }
  destruct Hf as [st1 ->]. apply IH. intros f' Hf'. apply Hu. right. exact Hf'.
Qed.

Lemma map_sources_total (sources : list (Path * string)) :
  forall st, is_Some (map_sources env fs st sources).
Proof.
  induction sources as [|[d repo] sources IH]; intros st; cbn [map_sources]; [eauto|].
  destruct (negb _); [apply IH|].
  destruct (map_files_total d repo (Fs.rglob_md fs d) (rglob_md_under d) st) as [st1 ->].
  apply IH.
Qed.

(** X5: the path mapper raises no exception, whatever the file system
    holds: [parts[0]] is always there. *)
Lemma build_filename_mapping_total :
  exists ms fm, build_filename_mapping env fs = Some (ms, fm).
Proof.
  destruct (map_sources_total SOURCES ([], ∅)) as [[ms fm] H]. eauto.
Qed.

(** C1, as amended: for every discovered file the path mapper records the
    normalized filename, or, when the destination tried first is taken (on
    disk or by an earlier mapping), that name with the repository
    identifier appended; the filename table registers the original
    filename with the name so recorded, repository suffix included, and
    keeps it unless a file met later has the same original filename. *)
Theorem C1_table_holds_final_name (ms : list FileMapping) (fm : Table) :
  build_filename_mapping env fs = Some (ms, fm) ->
  forall l1 m l2, ms = l1 ++ m :: l2 ->
    (exists target,
       tentative env m = Some target /\
       new_filename m = if conflicts fs l1 target
                        then suffixed env m else normalized env m) /\
    ((forall m', In m' l2 -> old_filename m' <> old_filename m) ->
     fm !! old_filename m = Some (new_filename m)).
Proof.
  intros H l1 m l2 ->. apply build_inv in H as [Ht Hr]. cbn [fst snd] in *.
  split.
  - destruct (Hr l1 m l2 eq_refl) as (_ & target & Htent & Hc).
    exists target. split; [exact Htent|].
    destruct (conflicts fs l1 target); apply Hc.
  - intros Hlast. rewrite Ht. apply table_of_last. exact Hlast.
Qed.

End MapperTotal.

(** C1, as stated, fails: when the destination of a file collides, its
    entry in the filename table is the name with the repository suffix,
    not the normalized name without it. *)
Lemma C1_counterexample :
  ~ (forall ms fm,
       build_filename_mapping env_jan fs_two_repos = Some (ms, fm) ->
       forall m, In m ms -> fm !! old_filename m = Some (normalized env_jan m)).
Proof.
  intros H.
  destruct (build_filename_mapping env_jan fs_two_repos) as [[ms fm]|] eqn:E.
  - specialize (H ms fm eq_refl).
    vm_compute in E. inversion E; subst ms fm; clear E.
    match type of H with
    | forall m, In m [_; ?m2] -> _ =>
        specialize (H m2 (or_intror (or_introl eq_refl)))
    end.
    vm_compute in H. discriminate H.
  - vm_compute in E. discriminate E.
Qed.

Lemma build_two_repos :
  build_filename_mapping env_jan fs_two_repos
  = Some ([two_repos_first; two_repos_second],
          table_of [two_repos_first; two_repos_second]).
Proof. vm_compute. reflexivity. Qed.

Lemma C1_witness :
  build_filename_mapping env_jan fs_two_repos
    = Some ([two_repos_first; two_repos_second],
            table_of [two_repos_first; two_repos_second]) /\
  normalized env_jan two_repos_second = "20240102_foo.md" /\
  new_filename two_repos_second = "20240102_foo_flovyn-app.md" /\
  table_of [two_repos_first; two_repos_second] !! "002-foo.md"
    = Some "20240102_foo_flovyn-app.md".
Proof.
  split; [exact build_two_repos|].
  do 2 (split; [reflexivity|]).
  refine (proj2 (C1_table_holds_final_name env_jan fs_two_repos _ _ build_two_repos
                   [two_repos_first] two_repos_second [] eq_refl) _).
  intros m' [].
Defined.

(** C2: three notes of one repository whose names normalize to the same
    name: the second and the third mapping get the same destination, as
    the repository suffix is added without a second look at the
    destinations already given. *)
Theorem C2_same_repository_collision :
  exists ms fm,
    build_filename_mapping env_jan fs_three_notes = Some (ms, fm) /\
    map old_filename ms = ["001-foo.md"; "002-foo.md"; "003-foo.md"] /\
    map new_path ms
      = [ TARGET_DIR ++ ["design"; "20240102_foo.md"];
          TARGET_DIR ++ ["design"; "20240102_foo_flovyn-server.md"];
          TARGET_DIR ++ ["design"; "20240102_foo_flovyn-server.md"] ] /\
    ~ NoDup (map new_path ms).
Proof.
  destruct (build_filename_mapping env_jan fs_three_notes) as [[ms fm]|] eqn:E;
    [|vm_compute in E; discriminate E].
  exists ms, fm. split; [reflexivity|].
  vm_compute in E. inversion E as [[Hms Hfm]]. clear E Hfm.
  split; [reflexivity|]. split; [reflexivity|].
  cbn [map new_path]. intros Hnd.
  apply NoDup_cons in Hnd as [_ Hnd]. apply NoDup_cons in Hnd as [Hnotin _].
  apply Hnotin. left.
Qed.

(** ** The run *)

Module EffFacts.

Lemma bind_eq {A B : Type} (f : A -> M B) (c : M A) (w : World) :
  (c ≫= f) w = match c w with
               | (w', Ok a) => f a w'
               | (w', Raise e) => (w', Raise e)
               end.
Proof. reflexivity. Qed.

(** *** Computations that leave the file system alone *)

Lemma preserving_ret {A : Type} (a : A) : fs_preserving (mret a : M A).
Proof. intros w. reflexivity. Qed.

Lemma preserving_bind {A B : Type} (c : M A) (f : A -> M B) :
  fs_preserving c -> (forall a, fs_preserving (f a)) -> fs_preserving (c ≫= f).
Proof.
  intros Hc Hf w. rewrite bind_eq. specialize (Hc w).
  destruct (c w) as [w' [a|e]]; cbn [fst] in *.
  - rewrite Hf. exact Hc.
  - exact Hc.
Qed.

Lemma preserving_raise {A : Type} (e : string) : fs_preserving (Eff.raise e : M A).
Proof. intros w. reflexivity. Qed.

Lemma preserving_get_fs : fs_preserving Eff.get_fs.
Proof. intros w. reflexivity. Qed.

Lemma preserving_print (line : string) : fs_preserving (Eff.print line).
Proof. intros w. reflexivity. Qed.

Lemma preserving_read_text (p : Path) : fs_preserving (Eff.read_text p).
Proof. intros w. unfold Eff.read_text. destruct (_ !! p); reflexivity. Qed.

Lemma preserving_when (cond : bool) (body : M unit) :
  (cond = true -> fs_preserving body) -> fs_preserving (Eff.when cond body).
Proof.
  intros H. destruct cond; cbn [Eff.when]; [apply H; reflexivity | apply preserving_ret].
Qed.

Lemma preserving_for_each {A : Type} (l : list A) (body : A -> M unit) :
  (forall x, fs_preserving (body x)) -> fs_preserving (Eff.for_each l body).
Proof.
  intros H. induction l as [|x l IH]; cbn [Eff.for_each].
  - apply preserving_ret.
  - apply preserving_bind; [apply H | intros _; exact IH].
Qed.

Lemma preserving_for_extend {A B : Type} (l : list A) (body : A -> M (list B)) :
  (forall x, fs_preserving (body x)) ->
  forall acc, fs_preserving (Eff.for_extend l body acc).
Proof.
  intros H. induction l as [|x l IH]; intros acc; cbn [Eff.for_extend].
  - apply preserving_ret.
  - apply preserving_bind; [apply H | intros ys; apply IH].
Qed.

(** *** Computations that only print *)

Lemma appending_ret {A : Type} (a : A) : console_appending (mret a : M A).
Proof. intros w. exists []. symmetry. apply app_nil_r. Qed.

Lemma appending_bind {A B : Type} (c : M A) (f : A -> M B) :
  console_appending c -> (forall a, console_appending (f a)) ->
  console_appending (c ≫= f).
Proof.
  intros Hc Hf w. rewrite bind_eq. destruct (Hc w) as [out1 H1].
  destruct (c w) as [w' [a|e]]; cbn [fst] in *.
  - destruct (Hf a w') as [out2 H2]. exists (out1 ++ out2).
    rewrite H2, H1. symmetry. apply List.app_assoc.
  - exists out1. exact H1.
Qed.

Lemma appending_raise {A : Type} (e : string) : console_appending (Eff.raise e : M A).
Proof. intros w. exists []. symmetry. apply app_nil_r. Qed.

Lemma appending_get_fs : console_appending Eff.get_fs.
Proof. intros w. exists []. symmetry. apply app_nil_r. Qed.

Lemma appending_print (line : string) : console_appending (Eff.print line).
Proof. intros w. exists [line]. reflexivity. Qed.

Lemma appending_read_text (p : Path) : console_appending (Eff.read_text p).
Proof.
  intros w. exists []. unfold Eff.read_text.
  destruct (_ !! p); symmetry; apply app_nil_r.
Qed.

Lemma appending_mkdir_p (p : Path) : console_appending (Eff.mkdir_p p).
Proof.
  intros w. exists []. unfold Eff.mkdir_p.
  destruct (existsb _ _); symmetry; apply app_nil_r.
Qed.

Lemma appending_write_text (p : Path) (content : string) :
  console_appending (Eff.write_text p content).
Proof.
  intros w. exists []. unfold Eff.write_text.
  destruct (bool_decide _); [|destruct (negb _)]; symmetry; apply app_nil_r.
Qed.

Lemma appending_when (cond : bool) (body : M unit) :
  console_appending body -> console_appending (Eff.when cond body).
Proof. intros H. destruct cond; [exact H | apply appending_ret]. Qed.

Lemma appending_for_each {A : Type} (l : list A) (body : A -> M unit) :
  (forall x, console_appending (body x)) -> console_appending (Eff.for_each l body).
Proof.
  intros H. induction l as [|x l IH]; cbn [Eff.for_each].
  - apply appending_ret.
  - apply appending_bind; [apply H | intros _; exact IH].
Qed.

Lemma appending_for_extend {A B : Type} (l : list A) (body : A -> M (list B)) :
  (forall x, console_appending (body x)) ->
  forall acc, console_appending (Eff.for_extend l body acc).
Proof.
  intros H. induction l as [|x l IH]; intros acc; cbn [Eff.for_extend].
  - apply appending_ret.
  - apply appending_bind; [apply H | intros ys; apply IH].
Qed.

End EffFacts.

Create HintDb preserving.
Create HintDb appending.

#[local] Hint Resolve
  EffFacts.preserving_ret EffFacts.preserving_raise EffFacts.preserving_get_fs
  EffFacts.preserving_print EffFacts.preserving_read_text : preserving.

#[local] Hint Resolve
  EffFacts.appending_ret EffFacts.appending_raise EffFacts.appending_get_fs
  EffFacts.appending_print EffFacts.appending_read_text
  EffFacts.appending_mkdir_p EffFacts.appending_write_text : appending.

Ltac preserving :=
  repeat first
    [ apply EffFacts.preserving_bind; [|intros ?]
    | apply EffFacts.preserving_for_each; intros ?
    | apply EffFacts.preserving_for_extend; intros ?
    | apply EffFacts.preserving_when; intros ?
    | solve [auto with preserving] ].

Ltac appending :=
  repeat first
    [ apply EffFacts.appending_bind; [|intros ?]
    | apply EffFacts.appending_for_each; intros ?
    | apply EffFacts.appending_for_extend; intros ?
    | apply EffFacts.appending_when
    | solve [auto with appending] ].

Section RunClaims.

Variable env : Env.

Lemma migrate_file_dry (mapping : FileMapping) (filename_map : Table) :
  fs_preserving (migrate_file mapping filename_map true).
Proof.
  unfold migrate_file. preserving; discriminate.
Qed.

Lemma migrate_file_appending (mapping : FileMapping) (filename_map : Table)
    (dry_run : bool) :
  console_appending (migrate_file mapping filename_map dry_run).
Proof.
  unfold migrate_file. appending.
Qed.

Lemma write_mapping_file_appending (mappings : list FileMapping) (dry_run : bool) :
  console_appending (write_mapping_file env mappings dry_run).
Proof. unfold write_mapping_file. destruct dry_run; appending. Qed.

Lemma starting_nil {A : Type} (c : M A) :
  console_appending c -> console_starting [] c.
Proof. intros H w. destruct (H w) as [out E]. exists out. exact E. Qed.

Lemma starting_print {A : Type} (line : string) (lines : list string) (k : M A) :
  console_starting lines k -> console_starting (line :: lines) (Eff.print line ;; k).
Proof.
  intros Hk w. rewrite EffFacts.bind_eq. cbn [Eff.print].
  destruct (Hk (mkWorld (w_fs w) (w_console w ++ [line]))) as [rest E].
  exists rest. rewrite E. cbn [w_console].
  rewrite <- List.app_assoc. reflexivity.
Qed.

Lemma migrate_all_appending (dry_run : bool) (built : list FileMapping * Table) :
  console_appending (migrate_all env dry_run built).
Proof.
  unfold migrate_all. destruct built as [mappings filename_map].
  appending;
    first [ apply migrate_file_appending
          | apply write_mapping_file_appending
          | unfold print_summary; destruct dry_run; appending ].
Qed.

(** A dry run changes nothing in the file system. *)
Lemma main_dry_preserving : fs_preserving (main env true).
Proof.
  unfold main. preserving; try discriminate.
  destruct (build_filename_mapping _ _) as [[mappings filename_map]|];
    [|preserving].
  unfold migrate_all. preserving; discriminate.
Qed.

(** The first lines of a run: the banner of the dry run, if it is one, and
    the banner of the script. *)
Lemma main_first_lines (dry_run : bool) :
  console_starting
    ((if dry_run then [dry_run_banner] else []) ++ [script_banner])
    (main env dry_run).
Proof.
  assert (Hrest : console_starting [script_banner]
            (Eff.print script_banner ;;
             Eff.print "Creating target directories..." ;;
             Eff.for_each TARGET_DIRS (create_target_dir dry_run) ;;
             Eff.print "" ;;
             Eff.print "Building file mapping..." ;;
             fs ← Eff.get_fs ;
             match build_filename_mapping env fs with
             | None => Eff.raise "IndexError"
             | Some built => migrate_all env dry_run built
             end)).
  { apply starting_print, starting_nil. appending.
    destruct (build_filename_mapping _ _) as [built|]; [|appending].
    apply migrate_all_appending. }
  destruct dry_run.
  - apply (starting_print dry_run_banner [script_banner]). exact Hrest.
  - intros w. destruct (Hrest w) as [rest E]. exists rest. exact E.
Qed.

End RunClaims.

(** ** The order of paths and [sorted] *)

Module PthFacts.

Lemma compare_eq (p q : Path) : Pth.compare p q = Eq -> p = q.
Proof.
  revert q. induction p as [|x p IH]; intros [|y q]; cbn [Pth.compare];
    try discriminate; [reflexivity|].
  destruct (String.compare x y) eqn:E; try discriminate.
  apply String.compare_eq_iff in E. intros H. f_equal; [exact E | apply IH, H].
Qed.

Lemma compare_antisym (p q : Path) :
  Pth.compare p q = CompOpp (Pth.compare q p).
Proof.
  revert q. induction p as [|x p IH]; intros [|y q]; cbn [Pth.compare];
    try reflexivity.
  rewrite String.compare_antisym.
  destruct (String.compare y x); cbn [CompOpp]; [apply IH | reflexivity..].
Qed.

Lemma compare_refl (p : Path) : Pth.compare p p = Eq.
Proof.
  pose proof (compare_antisym p p) as H.
  destruct (Pth.compare p p); [reflexivity | discriminate..].
Qed.

Lemma string_lt_trans (x y z : string) :
  String.compare x y = Lt -> String.compare y z = Lt -> String.compare x z = Lt.
Proof.
  intros H1 H2. apply String_as_OT.cmp_lt.
  apply String_as_OT.cmp_lt in H1, H2.
  eapply String_as_OT.lt_trans; eassumption.
Qed.

Lemma compare_lt_trans (p q r : Path) :
  Pth.compare p q = Lt -> Pth.compare q r = Lt -> Pth.compare p r = Lt.
Proof.
  revert q r. induction p as [|x p IH]; intros [|y q] [|z r]; cbn [Pth.compare];
    try discriminate; try reflexivity.
  destruct (String.compare x y) eqn:E1; try discriminate;
    destruct (String.compare y z) eqn:E2; try discriminate.
  - apply String.compare_eq_iff in E1, E2. subst y z.
    assert (Hx : String.compare x x = Eq) by (apply String_as_OT.cmp_eq; reflexivity).
    rewrite Hx. apply IH.
  - apply String.compare_eq_iff in E1. subst y. rewrite E2. reflexivity.
  - apply String.compare_eq_iff in E2. subst z. rewrite E1. reflexivity.
  - rewrite (string_lt_trans _ _ _ E1 E2). reflexivity.
Qed.

#[global] Instance path_le_trans : Transitive path_le.
Proof.
  intros p q r. unfold path_le, Pth.leb.
  destruct (Pth.compare p q) eqn:E1; try discriminate;
    destruct (Pth.compare q r) eqn:E2; try discriminate; intros _ _.
  - apply compare_eq in E1, E2. subst. rewrite compare_refl. reflexivity.
  - apply compare_eq in E1. subst. rewrite E2. reflexivity.
  - apply compare_eq in E2. subst. rewrite E1. reflexivity.
  - rewrite (compare_lt_trans _ _ _ E1 E2). reflexivity.
Qed.

#[global] Instance path_le_antisym : AntiSymm (=) path_le.
Proof.
  intros p q. unfold path_le, Pth.leb. rewrite (compare_antisym q p).
  destruct (Pth.compare p q) eqn:E; cbn [CompOpp]; try discriminate.
  intros _ _. apply compare_eq, E.
Qed.

Lemma path_le_total (p q : Path) : path_le p q \/ path_le q p.
Proof.
  unfold path_le, Pth.leb. rewrite (compare_antisym q p).
  destruct (Pth.compare p q); cbn [CompOpp]; auto.
Qed.

Lemma insert_sorted_perm (p : Path) (l : list Path) :
  Pth.insert_sorted p l ≡ₚ p :: l.
Proof.
  induction l as [|q l IH]; cbn [Pth.insert_sorted]; [reflexivity|].
  destruct (Pth.leb p q); [reflexivity|].
  rewrite IH. apply Permutation_swap.
Qed.

Lemma sorted_perm (l : list Path) : Pth.sorted l ≡ₚ l.
Proof.
  induction l as [|p l IH]; cbn [Pth.sorted fold_right]; [reflexivity|].
  rewrite insert_sorted_perm. fold (Pth.sorted l). rewrite IH. reflexivity.
Qed.

Lemma insert_sorted_Sorted (p : Path) (l : list Path) :
  Sorted path_le l -> Sorted path_le (Pth.insert_sorted p l).
Proof.
  induction l as [|q l IH]; cbn [Pth.insert_sorted]; intros Hs.
  - repeat constructor.
  - destruct (Pth.leb p q) eqn:E.
    + constructor; [exact Hs|]. constructor. exact E.
    + apply Sorted_inv in Hs as [Hs Hhd].
      constructor; [apply IH, Hs|].
      assert (Hqp : path_le q p).
      { destruct (path_le_total p q) as [H|H]; [|exact H].
        unfold path_le in H. congruence. }
      destruct l as [|r l]; cbn [Pth.insert_sorted].
      * constructor. exact Hqp.
      * destruct (Pth.leb p r); constructor; [exact Hqp|].
        inversion Hhd; assumption.
Qed.

Lemma sorted_Sorted (l : list Path) : Sorted path_le (Pth.sorted l).
Proof.
  induction l as [|p l IH]; cbn [Pth.sorted fold_right]; [constructor|].
  apply insert_sorted_Sorted. exact IH.
Qed.

(** The result of [sorted] depends on the elements only, not on the order
    in which they come. *)
Lemma sorted_unique (l1 l2 : list Path) :
  l1 ≡ₚ l2 -> Pth.sorted l1 = Pth.sorted l2.
Proof.
  intros H. apply (Sorted_unique path_le); [apply sorted_Sorted..|].
  rewrite !sorted_perm. exact H.
Qed.

End PthFacts.

(** ** The path mapper does not see the directories of the target tree *)

Section ShallowExt.

Variable env : Env.
Variables fs1 fs : FS.
Hypothesis Hext : shallow_ext fs1 fs.

Lemma exists_ext (q : Path) :
  shallow q = false -> Fs.exists_ fs1 q = Fs.exists_ fs q.
Proof.
  destruct Hext as (Hfiles & Hsub & Hnew). intros Hq.
  unfold Fs.exists_. rewrite Hfiles. f_equal.
  apply bool_decide_ext. split; [|apply Hsub].
  intros H. destruct (Hnew q H) as [H'|H']; [exact H' | congruence].
Qed.

Lemma deep_not_shallow (q : Path) : 9 <= length q -> shallow q = false.
Proof.
  intros H. unfold shallow.
  replace (length q <=? 8) with false; [reflexivity|].
  symmetry. apply Nat.leb_gt. lia.
Qed.

Lemma source_not_shallow (d : Path) (repo : string) :
  In (d, repo) SOURCES -> shallow d = false.
Proof.
  intros H. repeat (destruct H as [H|H]; [inversion H; reflexivity|]).
  destruct H.
Qed.

Lemma under_length (d p : Path) : Pth.under d p = true -> length d < length p.
Proof.
  revert p. induction d as [|x d IH]; intros [|y p] H; try discriminate;
    cbn [length].
  - lia.
  - cbn [Pth.under] in H. apply andb_true_iff in H as [_ H].
    apply IH in H. lia.
Qed.

Lemma source_length (d : Path) (repo : string) :
  In (d, repo) SOURCES -> length d = 8.
Proof.
  intros H. repeat (destruct H as [H|H]; [inversion H; reflexivity|]).
  destruct H.
Qed.

Lemma rglob_ext (d : Path) (repo : string) :
  In (d, repo) SOURCES -> Fs.rglob_md fs1 d = Fs.rglob_md fs d.
Proof.
  intros Hd. unfold Fs.rglob_md, Fs.all_paths. apply PthFacts.sorted_unique.
  apply NoDup_Permutation.
  - apply NoDup_filter, NoDup_elements.
  - apply NoDup_filter, NoDup_elements.
  - intros p. rewrite !list_elem_of_filter.
    rewrite !elem_of_elements, !elem_of_union.
    destruct Hext as (Hfiles & Hsub & Hnew). rewrite Hfiles.
    split; intros [HP Hin]; (split; [exact HP|]).
    + destruct Hin as [Hin|Hin]; [|right; exact Hin].
      destruct (Hnew p Hin) as [H|H]; [left; exact H|].
      apply andb_true_iff in HP as [HP _].
      apply under_length in HP. rewrite (source_length d repo Hd) in HP.
      rewrite deep_not_shallow in H by lia. discriminate.
    + destruct Hin as [Hin|Hin]; [left; apply Hsub, Hin | right; exact Hin].
Qed.

Lemma target_for_length (parts : Path) (name : string) (t : Path) :
  target_for parts name = Some t -> 9 <= length t.
Proof.
  destruct parts as [|a [|b [|c parts]]]; cbn; intros H; inversion H;
    cbn; lia.
Qed.

Lemma map_file_ext (d : Path) (repo : string) st f :
  map_file env fs1 d repo st f = map_file env fs d repo st f.
Proof.
  unfold map_file. destruct st as [ms fm].
  destruct (target_for _ _) as [t|] eqn:Et; [|reflexivity].
  unfold conflicts.
  rewrite (exists_ext t) by (apply deep_not_shallow; eapply target_for_length, Et).
  reflexivity.
Qed.

Lemma map_files_ext (d : Path) (repo : string) files :
  forall st, map_files env fs1 d repo st files = map_files env fs d repo st files.
Proof.
  induction files as [|f files IH]; intros st; cbn [map_files]; [reflexivity|].
  rewrite map_file_ext. destruct (map_file _ _ _ _ _ _); [apply IH | reflexivity].
Qed.

Lemma map_sources_ext (sources : list (Path * string)) :
  (forall src, In src sources -> In src SOURCES) ->
  forall st, map_sources env fs1 st sources = map_sources env fs st sources.
Proof.
  induction sources as [|[d repo] sources IH]; intros Hin st; cbn [map_sources];
    [reflexivity|].
  assert (Hd : In (d, repo) SOURCES) by (apply Hin; left; reflexivity).
  assert (IH' : forall st, map_sources env fs1 st sources = map_sources env fs st sources).
  { apply IH. intros src H. apply Hin. right. exact H. }
  rewrite (exists_ext d) by (eapply source_not_shallow, Hd).
  destruct (negb _); [apply IH'|].
  rewrite (rglob_ext d repo Hd), map_files_ext.
  destruct (map_files _ _ _ _ _ _); [apply IH' | reflexivity].
Qed.

(** More shallow directories do not change what the path mapper builds. *)
Lemma build_ext : build_filename_mapping env fs1 = build_filename_mapping env fs.
Proof. apply map_sources_ext. auto. Qed.

End ShallowExt.

(** ** A dry run and a run that executes, side by side *)

Module RunFacts.

Lemma bind_ok {A B : Type} (c : M A) (f : A -> M B) (w w2 : World) (b : B) :
  (c ≫= f) w = (w2, Ok b) ->
  exists w1 a, c w = (w1, Ok a) /\ f a w1 = (w2, Ok b).
Proof.
  rewrite EffFacts.bind_eq. destruct (c w) as [w1 [a|e]]; intros H;
    [eauto | discriminate].
Qed.

Lemma bind_run {A B : Type} (c : M A) (f : A -> M B) (w w1 : World) (a : A) :
  c w = (w1, Ok a) -> (c ≫= f) w = f a w1.
Proof. intros H. rewrite EffFacts.bind_eq, H. reflexivity. Qed.

Lemma world_eta (w : World) : mkWorld (w_fs w) (w_console w) = w.
Proof. destruct w; reflexivity. Qed.

Lemma shallow_ext_refl (fs : FS) : shallow_ext fs fs.
Proof. split; [reflexivity|]. split; auto. Qed.

Lemma shallow_ext_trans (fs2 fs1 fs : FS) :
  shallow_ext fs2 fs1 -> shallow_ext fs1 fs -> shallow_ext fs2 fs.
Proof.
  intros (Hf2 & Hs2 & Hn2) (Hf1 & Hs1 & Hn1).
  split; [congruence|]. split; [auto|].
  intros p H. destruct (Hn2 p H) as [H'|H']; [apply Hn1, H' | right; exact H'].
Qed.

(** The directories that [mkdir] makes for a target directory are
    shallow. *)
Lemma target_prefixes_shallow (dir_name : string) (p : Path) :
  In p (Pth.prefixes (Pth.div TARGET_DIR dir_name)) -> shallow p = true.
Proof.
  intros H. cbn in H.
  repeat (destruct H as [<-|H]; [reflexivity|]).
  destruct H.
Qed.

(** The loop over the target directories in a dry run: it prints. *)
Lemma dirs_dry (l : list string) :
  forall w,
    Eff.for_each l (create_target_dir true) w
    = (mkWorld (w_fs w) (w_console w ++ map dir_line l), Ok tt).
Proof.
  induction l as [|d l IH]; intros w; cbn [Eff.for_each map].
  - rewrite app_nil_r, world_eta. reflexivity.
  - erewrite bind_run by reflexivity. rewrite IH. cbn [w_fs w_console].
    rewrite <- List.app_assoc. reflexivity.
Qed.

(** The same loop in a run that executes: it prints the same lines and
    adds shallow directories. *)
Lemma dirs_exec (l : list string) :
  forall w w1,
    Eff.for_each l (create_target_dir false) w = (w1, Ok tt) ->
    w_console w1 = w_console w ++ map dir_line l /\
    shallow_ext (w_fs w1) (w_fs w).
Proof.
  induction l as [|d l IH]; intros w w1 H; cbn [Eff.for_each map] in H.
  - inversion H; subst w1. rewrite app_nil_r. split; [reflexivity|].
    apply shallow_ext_refl.
  - apply bind_ok in H as (wa & [] & Hd & H).
    apply IH in H as [Hc Hs].
    unfold create_target_dir in Hd.
    apply bind_ok in Hd as (wp & [] & Hp & Hd).
    inversion Hp; subst wp; clear Hp.
    cbn [negb Eff.when] in Hd. unfold Eff.mkdir_p in Hd.
    cbn [w_fs w_console] in Hd.
    set (D := list_to_set (Pth.prefixes (Pth.div TARGET_DIR d)) : gset Path) in Hd.
    assert (HD : forall p, p ∈ D -> shallow p = true).
    { intros p Hp. apply elem_of_list_to_set, list_elem_of_In in Hp.
      eapply target_prefixes_shallow, Hp. }
    clearbody D.
    destruct (existsb _ _); [discriminate|].
    inversion Hd; subst wa; clear Hd. cbn [w_fs w_console] in *.
    split.
    + rewrite Hc, <- List.app_assoc. reflexivity.
    + eapply shallow_ext_trans; [exact Hs|].
      split; [reflexivity|]. cbn [fs_dirs fs_files]. split.
      * intros p Hp. apply elem_of_union. left. exact Hp.
      * intros p Hp. apply elem_of_union in Hp as [Hp|Hp]; [left; exact Hp|].
        right. apply HD, Hp.
Qed.

End RunFacts.

Section FilesLoop.

Variable filename_map : Table.

Lemma migrate_file_dry_run (m : FileMapping) (w : World) (content : string) :
  fs_files (w_fs w) !! old_path m = Some content ->
  migrate_file m filename_map true w = (w, Ok []).
Proof.
  intros H. unfold migrate_file.
  erewrite RunFacts.bind_run by (unfold Eff.read_text; rewrite H; reflexivity).
  reflexivity.
Qed.

(** In a run that executes, [migrate_file] reads the file, prints nothing,
    returns no warning, and writes at the destination only. *)
Lemma migrate_file_exec (m : FileMapping) (w w1 : World) (r : list string) :
  migrate_file m filename_map false w = (w1, Ok r) ->
  r = [] /\
  w_console w1 = w_console w /\
  is_Some (fs_files (w_fs w) !! old_path m) /\
  forall p, p <> new_path m -> fs_files (w_fs w1) !! p = fs_files (w_fs w) !! p.
Proof.
  unfold migrate_file. intros H.
  apply RunFacts.bind_ok in H as (w0 & content & Hr & H).
  unfold Eff.read_text in Hr.
  destruct (fs_files (w_fs w) !! old_path m) as [c|] eqn:Ec; [|discriminate].
  inversion Hr; subst w0 content; clear Hr.
  unfold normalize_links_in_content in H. cbv zeta iota beta in H.
  apply RunFacts.bind_ok in H as (w2 & [] & Hw & H).
  inversion H; subst w1 r; clear H.
  cbn [negb Eff.when] in Hw.
  apply RunFacts.bind_ok in Hw as (w3 & [] & Hm & Hw).
  unfold Eff.mkdir_p in Hm. destruct (existsb _ _); [discriminate|].
  inversion Hm; subst w3; clear Hm.
  unfold Eff.write_text in Hw. cbn [w_fs w_console fs_dirs fs_files] in Hw.
  destruct (bool_decide _); [discriminate|]. destruct (negb _); [discriminate|].
  inversion Hw; subst w2; clear Hw. cbn [w_fs w_console fs_files].
  repeat split; eauto.
  intros p Hp. apply lookup_insert_ne. congruence.
Qed.

(** The loop over the mappings in a dry run, when every file can be
    read. *)
Lemma files_dry (ms : list FileMapping) :
  forall acc w,
    (forall m, In m ms -> is_Some (fs_files (w_fs w) !! old_path m)) ->
    Eff.for_extend ms (migrate_mapping filename_map true) acc w
    = (mkWorld (w_fs w) (w_console w ++ file_lines ms), Ok acc).
Proof.
  induction ms as [|m ms IH]; intros acc w Hread; cbn [Eff.for_extend].
  - unfold file_lines. cbn [map concat]. rewrite app_nil_r, RunFacts.world_eta.
    reflexivity.
  - destruct (Hread m (or_introl eq_refl)) as [content Hc].
    erewrite RunFacts.bind_run.
    2:{ unfold migrate_mapping.
        erewrite RunFacts.bind_run by reflexivity.
        erewrite RunFacts.bind_run by reflexivity.
        apply (migrate_file_dry_run m _ content). exact Hc. }
    rewrite IH.
    + cbn [w_fs w_console]. rewrite app_nil_r.
      unfold file_lines. cbn [map concat]. rewrite <- !List.app_assoc.
      reflexivity.
    + intros m' Hm'. cbn [w_fs]. apply Hread. right. exact Hm'.
Qed.

(** The same loop in a run that executes and comes to its end: it prints
    the same lines, returns no warning, changes files below the target
    directory only, and has read every file. *)
Lemma files_exec (ms : list FileMapping) :
  forall acc w w1 r,
    Eff.for_extend ms (migrate_mapping filename_map false) acc w = (w1, Ok r) ->
    (forall m, In m ms -> Pth.under TARGET_DIR (new_path m) = true) ->
    r = acc /\
    w_console w1 = w_console w ++ file_lines ms /\
    (forall p, Pth.under TARGET_DIR p = false ->
               fs_files (w_fs w1) !! p = fs_files (w_fs w) !! p) /\
    (forall m, In m ms -> Pth.under TARGET_DIR (old_path m) = false ->
               is_Some (fs_files (w_fs w) !! old_path m)).
Proof.
  induction ms as [|m ms IH]; intros acc w w1 r H Hnew; cbn [Eff.for_extend] in H.
  - inversion H; subst w1 r. unfold file_lines. cbn [map concat].
    rewrite app_nil_r. repeat split; auto. intros m [].
  - apply RunFacts.bind_ok in H as (wa & ys & Hm & H).
    unfold migrate_mapping in Hm.
    erewrite RunFacts.bind_run in Hm by reflexivity.
    erewrite RunFacts.bind_run in Hm by reflexivity.
    apply migrate_file_exec in Hm as (-> & Hc & Hread & Hfiles).
    cbn [w_fs w_console] in *.
    apply IH in H as (-> & Hc' & Hfiles' & Hread').
    2:{ intros m' Hm'. apply Hnew. right. exact Hm'. }
    assert (Hagree : forall p, Pth.under TARGET_DIR p = false ->
                       fs_files (w_fs wa) !! p = fs_files (w_fs w) !! p).
    { intros p Hp. apply Hfiles. intros ->.
      rewrite (Hnew m (or_introl eq_refl)) in Hp. discriminate. }
    split; [apply app_nil_r|]. split; [|split].
    + rewrite Hc', Hc. unfold file_lines. cbn [map concat].
      rewrite <- !List.app_assoc. reflexivity.
    + intros p Hp. rewrite (Hfiles' p Hp). apply Hagree, Hp.
    + intros m' [<-|Hm'] Hold; [exact Hread|].
      rewrite <- (Hagree _ Hold). apply Hread'; assumption.
Qed.

End FilesLoop.

Section BuiltPaths.

Variable env : Env.
Variable fs : FS.

Lemma target_for_under (parts : Path) (name : string) (t : Path) :
  target_for parts name = Some t -> Pth.under TARGET_DIR t = true.
Proof.
  destruct parts as [|a [|b [|c parts]]]; cbn [target_for]; intros H;
    inversion H; reflexivity.
Qed.

(** Every destination lies below the target directory. *)
Lemma build_new_under (ms : list FileMapping) (fm : Table) :
  build_filename_mapping env fs = Some (ms, fm) ->
  forall m, In m ms -> Pth.under TARGET_DIR (new_path m) = true.
Proof.
  intros H m Hm. apply build_inv in H as [_ Hr]. cbn [fst] in Hr.
  apply in_split in Hm as (l1 & l2 & ->).
  destruct (Hr l1 m l2 eq_refl) as (_ & target & Htent & Hc).
  unfold tentative in Htent.
  destruct (conflicts fs l1 target); destruct Hc as [_ ->].
  - destruct (target_for (parts_of m) (suffixed env m)) as [t|] eqn:Et; cbn [default].
    + eapply target_for_under, Et.
    + eapply target_for_under, Htent.
  - eapply target_for_under, Htent.
Qed.

Lemma map_file_old (d : Path) (repo : string) st f st' :
  In (d, repo) SOURCES -> Pth.under d f = true ->
  Forall (fun m => from_source (old_path m) = true) st.1 ->
  map_file env fs d repo st f = Some st' ->
  Forall (fun m => from_source (old_path m) = true) st'.1.
Proof.
  intros Hd Hf Hst H. unfold map_file in H. destruct st as [ms fm].
  destruct (target_for _ _) as [t|]; [|discriminate].
  assert (Hsrc : from_source f = true).
  { unfold from_source. apply existsb_exists. exists (d, repo). auto. }
  destruct (conflicts fs ms t); inversion H; subst st'; cbn [fst] in *;
    apply Forall_app; (split; [exact Hst|]); repeat constructor; exact Hsrc.
Qed.

Lemma map_files_old (d : Path) (repo : string) files :
  In (d, repo) SOURCES ->
  (forall f, In f files -> Pth.under d f = true) ->
  forall st st',
    Forall (fun m => from_source (old_path m) = true) st.1 ->
    map_files env fs d repo st files = Some st' ->
    Forall (fun m => from_source (old_path m) = true) st'.1.
Proof.
  intros Hd. induction files as [|f files IH]; intros Hu st st' Hst H;
    cbn [map_files] in H.
  - inversion H; subst. exact Hst.
  - destruct (map_file _ _ _ _ st f) as [st1|] eqn:E; [|discriminate].
    eapply IH; [| |exact H].
    + intros f' Hf'. apply Hu. right. exact Hf'.
    + eapply map_file_old; [exact Hd| |exact Hst|exact E].
      apply Hu. left. reflexivity.
Qed.

Lemma map_sources_old (sources : list (Path * string)) :
  (forall src, In src sources -> In src SOURCES) ->
  forall st st',
    Forall (fun m => from_source (old_path m) = true) st.1 ->
    map_sources env fs st sources = Some st' ->
    Forall (fun m => from_source (old_path m) = true) st'.1.
Proof.
  induction sources as [|[d repo] sources IH]; intros Hin st st' Hst H;
    cbn [map_sources] in H.
  - inversion H; subst. exact Hst.
  - assert (IH' := IH (fun src Hs => Hin src (or_intror Hs))).
    destruct (negb _); [eapply IH'; eassumption|].
    destruct (map_files _ _ _ _ st _) as [st1|] eqn:E; [|discriminate].
    eapply IH'; [|exact H].
    eapply map_files_old; [| |exact Hst|exact E].
    + apply Hin. left. reflexivity.
    + apply rglob_md_under.
Qed.

(** Every migrated file lies in the documentation tree of a source. *)
Lemma build_old_from_source (ms : list FileMapping) (fm : Table) :
  build_filename_mapping env fs = Some (ms, fm) ->
  forall m, In m ms -> from_source (old_path m) = true.
Proof.
  intros H. apply (map_sources_old SOURCES) in H; [|auto|constructor].
  cbn [fst] in H. rewrite Forall_forall in H.
  intros m Hm. apply H, list_elem_of_In, Hm.
Qed.

Lemma under_nth (d p : Path) :
  Pth.under d p = true -> forall i, i < length d -> nth i p "" = nth i d "".
Proof.
  revert p. induction d as [|x d IH]; intros [|y p] H i Hi; cbn [length] in Hi;
    try discriminate; try lia.
  cbn [Pth.under] in H. apply andb_true_iff in H as [Hxy H].
  apply String.eqb_eq in Hxy. subst y.
  destruct i as [|i]; [reflexivity|]. cbn [nth]. apply IH; [exact H | lia].
Qed.

(** The documentation trees of the sources lie outside the target
    directory. *)
Lemma from_source_not_target (p : Path) :
  from_source p = true -> Pth.under TARGET_DIR p = false.
Proof.
  unfold from_source. intros H. apply existsb_exists in H as (src & Hsrc & Hu).
  destruct (Pth.under TARGET_DIR p) eqn:Ht; [|reflexivity].
  pose proof (under_nth _ _ Ht 5) as H5. cbn in H5. specialize (H5 ltac:(lia)).
  pose proof (under_nth _ _ Hu 5) as H5'.
  repeat (destruct Hsrc as [<-|Hsrc];
          [cbn in H5'; specialize (H5' ltac:(lia)); congruence|]).
  destruct Hsrc.
Qed.

End BuiltPaths.

Section DryVersusExec.

Variable env : Env.

Lemma write_mapping_file_console (ms : list FileMapping) (w w1 : World) :
  write_mapping_file env ms false w = (w1, Ok tt) -> w_console w1 = w_console w.
Proof.
  unfold write_mapping_file, Eff.write_text.
  destruct (bool_decide _); [discriminate|]. destruct (negb _); [discriminate|].
  intros H. inversion H. reflexivity.
Qed.

(** When a run that executes comes to its end, the dry run in the same
    world comes to its end too, and the two print the same progress
    lines; the dry run prints its banner before them, and each prints its
    own summary after them. *)
Lemma dry_versus_exec (w : World) :
  (main env false w).2 = Ok tt ->
  exists ms fm,
    build_filename_mapping env (w_fs w) = Some (ms, fm) /\
    w_console (main env false w).1
      = w_console w ++ progress_lines ms
        ++ exec_summary (w_fs (main env false w).1) /\
    main env true w
      = (mkWorld (w_fs w)
           (w_console w ++ [dry_run_banner] ++ progress_lines ms ++ dry_summary),
         Ok tt).
Proof.
  destruct (main env false w) as [w' r] eqn:E. cbn [fst snd]. intros ->.
  unfold main in E. cbn [Eff.when] in E.
  erewrite RunFacts.bind_run in E by reflexivity.
  erewrite RunFacts.bind_run in E by reflexivity.
  erewrite RunFacts.bind_run in E by reflexivity.
  apply RunFacts.bind_ok in E as (w1 & [] & Hdirs & E).
  apply RunFacts.dirs_exec in Hdirs as [Hc1 Hext]. cbn [w_fs w_console] in *.
  erewrite RunFacts.bind_run in E by reflexivity.
  erewrite RunFacts.bind_run in E by reflexivity.
  erewrite RunFacts.bind_run in E by reflexivity.
  cbn [w_fs w_console] in E.
  rewrite (build_ext env _ _ Hext) in E.
  destruct (build_filename_mapping env (w_fs w)) as [[ms fm]|] eqn:Eb;
    [|discriminate].
  exists ms, fm. split; [reflexivity|].
  unfold migrate_all in E.
  erewrite RunFacts.bind_run in E by reflexivity.
  apply RunFacts.bind_ok in E as (w2 & ws & Hloop & E).
  apply files_exec in Hloop as (-> & Hc2 & _ & Hread);
    [|exact (build_new_under env _ _ _ Eb)].
  cbn [w_fs w_console] in *.
  apply RunFacts.bind_ok in E as (w3 & [] & Hwrite & E).
  pose proof (write_mapping_file_console _ _ _ Hwrite) as Hc3.
  erewrite RunFacts.bind_run in E by reflexivity.
  unfold print_summary, print_warnings in E.
  erewrite RunFacts.bind_run in E.
  2:{ erewrite RunFacts.bind_run by reflexivity.
      erewrite RunFacts.bind_run by reflexivity.
      reflexivity. }
  inversion E; subst w'; clear E. cbn [w_fs w_console].
  split.
  - rewrite Hc3, Hc2, Hc1. unfold progress_lines, exec_summary.
    rewrite <- !List.app_assoc. reflexivity.
  - unfold main. cbn [Eff.when].
    erewrite RunFacts.bind_run by reflexivity.
    erewrite RunFacts.bind_run by reflexivity.
    erewrite RunFacts.bind_run by reflexivity.
    erewrite RunFacts.bind_run by apply RunFacts.dirs_dry.
    erewrite RunFacts.bind_run by reflexivity.
    erewrite RunFacts.bind_run by reflexivity.
    erewrite RunFacts.bind_run by reflexivity.
    cbn [w_fs w_console]. rewrite Eb. unfold migrate_all.
    erewrite RunFacts.bind_run by reflexivity.
    erewrite RunFacts.bind_run.
    2:{ apply files_dry. intros m Hm. cbn [w_fs].
        destruct Hext as (Hfiles & _). rewrite <- Hfiles.
        apply Hread; [exact Hm|].
        apply from_source_not_target.
        eapply build_old_from_source; eassumption. }
    cbn [w_fs w_console]. unfold write_mapping_file.
    erewrite RunFacts.bind_run by reflexivity.
    erewrite RunFacts.bind_run by reflexivity.
    unfold print_summary, print_warnings.
    erewrite RunFacts.bind_run.
    2:{ erewrite RunFacts.bind_run by reflexivity. reflexivity. }
    cbn [StrWs.nonempty_list Eff.when w_fs w_console].
    unfold progress_lines, dry_summary, dry_run_banner.
    f_equal. f_equal. rewrite <- !List.app_assoc. reflexivity.
Qed.

(** C9, as amended: a dry run changes nothing in the file system, however
    it ends: no directory is created, no file is written, the mapping
    manifest is not produced.  What it prints is not what a run that
    executes prints: it starts with the dry-run banner, which the other
    run does not print, and it ends with its own summary.  Between the
    two, whenever the run that executes comes to its end, both runs print
    the same progress lines. *)
Theorem C9_dry_run_changes_no_file (w : World) :
  w_fs (main env true w).1 = w_fs w /\
  fs_dirs (w_fs (main env true w).1) = fs_dirs (w_fs w) /\
  fs_files (w_fs (main env true w).1) !! MAPPING_FILE
    = fs_files (w_fs w) !! MAPPING_FILE /\
  (exists rest,
     w_console (main env true w).1
       = w_console w ++ [dry_run_banner; script_banner] ++ rest) /\
  (exists rest,
     w_console (main env false w).1 = w_console w ++ [script_banner] ++ rest) /\
  ((main env false w).2 = Ok tt ->
   exists ms fm,
     build_filename_mapping env (w_fs w) = Some (ms, fm) /\
     (main env true w).2 = Ok tt /\
     w_console (main env true w).1
       = w_console w ++ [dry_run_banner] ++ progress_lines ms ++ dry_summary /\
     w_console (main env false w).1
       = w_console w ++ progress_lines ms
         ++ exec_summary (w_fs (main env false w).1)).
Proof.
  pose proof (main_dry_preserving env w) as Hfs.
  split; [exact Hfs|]. rewrite Hfs.
  split; [reflexivity|]. split; [reflexivity|].
  split; [exact (main_first_lines env true w)|].
  split; [exact (main_first_lines env false w)|].
  intros Hok. destruct (dry_versus_exec w Hok) as (ms & fm & Hb & He & Hd).
  exists ms, fm. rewrite Hd. cbn [fst snd w_console]. auto.
Qed.

End DryVersusExec.

(** C9, as stated, fails: a dry run and a run that executes do not print
    the same lines, even on an empty file system. *)
Lemma C9_counterexample :
  ~ (forall (env : Env) (w : World),
       w_fs (main env true w).1 = w_fs w /\
       w_console (main env true w).1 = w_console (main env false w).1).
Proof.
  intros H. destruct (H env_jan empty_world) as [_ Hc].
  vm_compute in Hc. discriminate Hc.
Qed.

Lemma C9_witness :
  (main env_jan false three_notes_world).2 = Ok tt /\
  exists ms fm,
    build_filename_mapping env_jan fs_three_notes = Some (ms, fm) /\
    (main env_jan true three_notes_world).2 = Ok tt /\
    w_console (main env_jan true three_notes_world).1
      = [dry_run_banner] ++ progress_lines ms ++ dry_summary /\
    w_console (main env_jan false three_notes_world).1
      = progress_lines ms
        ++ exec_summary (w_fs (main env_jan false three_notes_world).1).
Proof.
  assert (Hok : (main env_jan false three_notes_world).2 = Ok tt)
    by (vm_compute; reflexivity).
  split; [exact Hok|].
  exact (proj2 (proj2 (proj2 (proj2 (proj2
           (C9_dry_run_changes_no_file env_jan three_notes_world))))) Hok).
Defined.

(** * Further properties of the script *)

(** * Further properties of the script *)

(** ** [get_git_date] *)

Module GitDate.

Lemma last_line_snoc (t : string) (c : ascii) :
  Ascii.eqb StrWs.nl c = false ->
  StrWs.nonempty (StrWs.last_line (t +:+ String c "")) = true.
Proof.
  intros Hc. unfold StrWs.last_line.
  induction t as [|d t IH].
  - rewrite StrFacts.app_nil. cbn [Str.after_last Str.has_char].
    rewrite Hc. reflexivity.
  - rewrite StrFacts.app_cons. cbn [Str.after_last].
    destruct (Str.has_char StrWs.nl (t +:+ String c "")).
    + exact IH.
    + destruct (Ascii.eqb StrWs.nl d); [|reflexivity].
      cbn [Str.drop]. destruct t; reflexivity.
Qed.

(** What [rstrip] leaves is empty or ends with a character that is not
    white space. *)
Lemma rstrip_ws_end (s : string) :
  StrWs.rstrip_ws s = "" \/
  exists t c, StrWs.rstrip_ws s = t +:+ String c "" /\ StrWs.isspace c = false.
Proof.
  induction s as [|d s IH]; [left; reflexivity|].
  cbn [StrWs.rstrip_ws].
  destruct IH as [->|(t & c & -> & Hc)].
  - destruct (StrWs.isspace d) eqn:Ed; [left; reflexivity|].
    right. exists "", d. split; [reflexivity | exact Ed].
  - right. exists (String d t), c. split; [|exact Hc].
    destruct t; reflexivity.
Qed.

(** The last line of a stripped text that is not empty is not empty: the
    test [dates[-1]] of the script fails on blank output only. *)
Lemma last_line_of_strip (out : string) :
  StrWs.strip out <> "" ->
  StrWs.nonempty (StrWs.last_line (StrWs.strip out)) = true.
Proof.
  unfold StrWs.strip. intros H.
  destruct (rstrip_ws_end (StrWs.lstrip_ws out)) as [E|(t & c & E & Hc)];
    [congruence|].
  rewrite E. apply last_line_snoc.
  destruct (Ascii.eqb StrWs.nl c) eqn:En; [|reflexivity].
  apply Ascii.eqb_eq in En. subst c. discriminate Hc.
Qed.

End GitDate.

Section GitDateProps.

Variable env : Env.
Variable file_path : Path.

(** X1: The chain of fall-backs of [get_git_date]: when the first [git log]
    fails, the date is the date of today; when it answers with some text
    other than white space, the date is the last line of the stripped
    answer without its hyphens; when it answers with white space only,
    the second [git log] decides: its stripped answer without the hyphens
    if there is one, and the date of today when it fails or answers with
    white space only. *)
Theorem get_git_date_fallbacks :
  (git_log_added env file_path = None ->
   get_git_date env file_path = today env) /\
  (forall out1,
     git_log_added env file_path = Some out1 -> StrWs.strip out1 <> "" ->
     get_git_date env file_path
       = Str.replace "-" "" (StrWs.last_line (StrWs.strip out1))) /\
  (forall out1,
     git_log_added env file_path = Some out1 -> StrWs.strip out1 = "" ->
     git_log_last env file_path = None ->
     get_git_date env file_path = today env) /\
  (forall out1 out2,
     git_log_added env file_path = Some out1 -> StrWs.strip out1 = "" ->
     git_log_last env file_path = Some out2 ->
     get_git_date env file_path
       = if StrWs.nonempty (StrWs.strip out2)
         then Str.replace "-" "" (StrWs.strip out2) else today env).
Proof.
  unfold get_git_date. repeat split.
  - intros ->. reflexivity.
  - intros out1 -> H. rewrite GitDate.last_line_of_strip by exact H. reflexivity.
  - intros out1 -> -> ->. reflexivity.
  - intros out1 out2 -> -> ->. reflexivity.
Qed.

End GitDateProps.

Lemma get_git_date_fallbacks_witness :
  StrWs.strip ("2024-03-15" +:+ String StrWs.nl "2024-01-02" +:+ String StrWs.nl "")
    <> "" /\
  get_git_date env_two_dates bug_report_path = "20240102".
Proof.
  assert (H : StrWs.strip ("2024-03-15" +:+ String StrWs.nl "2024-01-02"
                           +:+ String StrWs.nl "") <> "")
    by (vm_compute; discriminate).
  split; [exact H|].
  exact (proj1 (proj2 (get_git_date_fallbacks env_two_dates bug_report_path))
           _ eq_refl H).
Defined.

Lemma get_git_date_no_hyphen_witness :
  no_hyphen (today env_march) /\ no_hyphen (get_git_date env_march bug_report_path).
Proof.
  split; [reflexivity|].
  apply (get_git_date_no_hyphen env_march bug_report_path). reflexivity.
Defined.

(** ** [normalize_filename], applied twice *)

Module Normalize.

Lemma digit_not_separator (c : ascii) :
  Re.digit c = true -> Ascii.eqb "_" c = false /\ Ascii.eqb "-" c = false.
Proof.
  intros H. split.
  - destruct (Ascii.eqb "_" c) eqn:E; [|reflexivity].
    apply Ascii.eqb_eq in E. subst c. discriminate H.
  - destruct (Ascii.eqb "-" c) eqn:E; [|reflexivity].
    apply Ascii.eqb_eq in E. subst c. discriminate H.
Qed.

Lemma digits_then_app (n : nat) (c : ascii) (t : string) :
  forall s, digits_then n c s = true -> digits_then n c (s +:+ t) = true.
Proof.
  induction n as [|n IH]; intros [|d s] H; try discriminate;
    rewrite StrFacts.app_cons; cbn [digits_then] in *.
  - exact H.
  - apply andb_true_iff in H as [Hd H]. rewrite Hd. apply IH, H.
Qed.

(** The ordinal pattern starts with an underscore. *)
Lemma sequence_needs_underscore (ma b : bool) (d : ascii) (s : string) :
  Ascii.eqb "_" d = false ->
  Re.match_here sequence_pattern ma b (String d s) = None.
Proof.
  intros H. unfold Re.match_here, sequence_pattern. cbn [Re.run].
  rewrite H. reflexivity.
Qed.

(** Removing ordinals and hyphens leaves a date prefix where it is. *)
Lemma cleanup_keeps_date (n : nat) :
  forall s b,
    digits_then n "_" s = true ->
    digits_then n "_"
      (Str.replace_from "-" "_" 0
         (Re.sub_from sequence_pattern (fun _ => "_") 0 b s)) = true.
Proof.
  induction n as [|n IH]; intros [|d s] b H; try discriminate;
    cbn [digits_then] in H.
  - apply Ascii.eqb_eq in H. subst d. cbn [Re.sub_from].
    destruct (Re.match_here sequence_pattern false b _) as [m|]; [|reflexivity].
    destruct (Str.len (Re.m_text m)); [|reflexivity].
    destruct (Re.match_here sequence_pattern true b _); reflexivity.
  - apply andb_true_iff in H as [Hd H].
    destruct (digit_not_separator d Hd) as [Hu Hh].
    cbn [Re.sub_from]. rewrite sequence_needs_underscore by exact Hu.
    cbn [Str.replace_from]. rewrite StrFacts.startswith_cons_char, Hh.
    cbn [digits_then]. rewrite Hd. apply IH, H.
Qed.

End Normalize.

Section NormalizeTwice.

Variable env : Env.

(** A name with the date prefix and the extension, and without a hyphen,
    is normalized to itself, whatever the environment. *)
Lemma normalize_fixed (f : string) (source_file : Path) :
  dated_md f = true -> no_hyphen f -> normalize_filename env f source_file = f.
Proof.
  unfold dated_md. intros Hd Hh.
  apply andb_true_iff in Hd as [Hdate Hmd].
  pose proof (StrFacts.endswith_split _ _ Hmd) as Hf.
  change (Str.len ".md") with 3 in Hf.
  unfold normalize_filename, strip_md. rewrite Hmd.
  set (r := Str.drop_last 3 f) in *.
  assert (Hr : Re.matches date_prefix_pattern r = true).
  { rewrite matches_date_prefix in *. apply digits_then_before_md.
    rewrite <- Hf. exact Hdate. }
  unfold add_date. rewrite Hr. cbn [negb].
  rewrite cleanup_without_hyphen; [symmetry; exact Hf|].
  unfold no_hyphen in *. rewrite Hf, StrFacts.has_char_app in Hh.
  apply orb_false_iff in Hh as [Hh _]. exact Hh.
Qed.

Lemma normalize_filename_no_hyphen (f : string) (source_file : Path) :
  no_hyphen (normalize_filename env f source_file).
Proof.
  unfold normalize_filename, no_hyphen. rewrite StrFacts.has_char_app.
  rewrite StrFacts.replace_char_gone by reflexivity. reflexivity.
Qed.

End NormalizeTwice.

Section NormalizeTwiceMore.

Variable env : Env.

Lemma normalized_name_dated (f : string) (source_file : Path) :
  eight_digits (get_git_date env source_file) ->
  dated_md (normalize_filename env f source_file) = true.
Proof.
  intros Hdate. unfold dated_md, normalize_filename.
  rewrite StrFacts.endswith_app, andb_true_r, matches_date_prefix.
  apply Normalize.digits_then_app. apply Normalize.cleanup_keeps_date.
  unfold add_date.
  destruct (Re.matches date_prefix_pattern (strip_md f)) eqn:E; cbn [negb].
  - rewrite <- matches_date_prefix. exact E.
  - rewrite <- StrFacts.app_assoc. apply Normalize.digits_then_app. exact Hdate.
Qed.


(** X4: Normalizing twice is normalizing once: a file that was renamed by the
    script keeps its name when the script meets it again, wherever the
    file is then and whatever [git] says then. *)
Theorem normalize_filename_idempotent (env' : Env) (f : string)
    (source_file source_file' : Path) :
  eight_digits (get_git_date env source_file) ->
  normalize_filename env' (normalize_filename env f source_file) source_file'
  = normalize_filename env f source_file.
Proof.
  intros Hdate. apply normalize_fixed.
  - apply normalized_name_dated. exact Hdate.
  - apply normalize_filename_no_hyphen.
Qed.

End NormalizeTwiceMore.

Lemma normalize_filename_idempotent_witness :
  eight_digits (get_git_date env_march bug_report_path) /\
  normalize_filename env_jan
    (normalize_filename env_march "001-bug-report.md" bug_report_path) []
  = normalize_filename env_march "001-bug-report.md" bug_report_path.
Proof.
  split; [reflexivity|].
  apply (normalize_filename_idempotent env_march env_jan "001-bug-report.md"
           bug_report_path []).
  reflexivity.
Defined.

(** ** The path mapper: what it builds *)

Section MapperShape.

Variable env : Env.
Variable fs : FS.

Lemma rglob_md_name (d f : Path) :
  In f (Fs.rglob_md fs d) -> Str.endswith (Pth.name f) ".md" = true.
Proof.
  unfold Fs.rglob_md. intros H. apply in_sorted in H.
  apply list_elem_of_In, list_elem_of_filter in H as [H _].
  apply andb_true_iff in H as [_ H]. exact H.
Qed.

(** A property of mappings that every step of the inner loop keeps holds
    of all the mappings that are built. *)
Lemma build_forall (Q : FileMapping -> Prop) :
  (forall d repo f ms fm st',
     In (d, repo) SOURCES -> In f (Fs.rglob_md fs d) ->
     map_file env fs d repo (ms, fm) f = Some st' ->
     Forall Q ms -> Forall Q st'.1) ->
  forall ms fm, build_filename_mapping env fs = Some (ms, fm) -> Forall Q ms.
Proof.
  intros Hstep.
  assert (Hfiles : forall d repo, In (d, repo) SOURCES ->
            forall files, (forall f, In f files -> In f (Fs.rglob_md fs d)) ->
            forall st st', Forall Q st.1 ->
              map_files env fs d repo st files = Some st' -> Forall Q st'.1).
  { intros d repo Hd. induction files as [|f files IH]; intros Hin st st' Hst H;
      cbn [map_files] in H.
    - inversion H; subst. exact Hst.
    - destruct (map_file _ _ _ _ st f) as [st1|] eqn:E; [|discriminate].
      eapply IH; [| |exact H].
      + intros f' Hf'. apply Hin. right. exact Hf'.
      + destruct st as [ms fm]. eapply Hstep; [exact Hd| |exact E|exact Hst].
        apply Hin. left. reflexivity. }
  assert (Hsources : forall sources, (forall src, In src sources -> In src SOURCES) ->
            forall st st', Forall Q st.1 ->
              map_sources env fs st sources = Some st' -> Forall Q st'.1).
  { induction sources as [|[d repo] sources IH]; intros Hin st st' Hst H;
      cbn [map_sources] in H.
    - inversion H; subst. exact Hst.
    - assert (IH' := IH (fun src Hs => Hin src (or_intror Hs))).
      destruct (negb _); [eapply IH'; eassumption|].
      destruct (map_files _ _ _ _ st _) as [st1|] eqn:E; [|discriminate].
      eapply IH'; [|exact H].
      eapply Hfiles; [| |exact Hst|exact E]; [apply Hin; left; reflexivity|auto]. }
  intros ms fm H. apply (Hsources SOURCES) in H; [exact H|auto|constructor].
Qed.

Lemma target_for_name (parts : Path) (name : string) (t : Path) :
  target_for parts name = Some t -> Pth.name t = name.
Proof.
  destruct parts as [|a [|b [|c parts]]]; cbn [target_for]; intros H;
    inversion H; reflexivity.
Qed.

Lemma target_for_other_name (parts : Path) (name name' : string) (t : Path) :
  target_for parts name = Some t -> is_Some (target_for parts name').
Proof.
  destruct parts as [|a [|b [|c parts]]]; cbn [target_for]; intros H;
    inversion H; eauto.
Qed.

Lemma built_well_formed (ms : list FileMapping) (fm : Table) :
  build_filename_mapping env fs = Some (ms, fm) ->
  forall m, In m ms -> well_formed_mapping m.
Proof.
  intros H m Hm.
  apply (build_forall well_formed_mapping) in H.
  { rewrite Forall_forall in H. apply H, list_elem_of_In, Hm. }
  clear. intros d repo f ms fm st' Hd Hf Hstep Hms.
  unfold map_file in Hstep.
  destruct (target_for _ _) as [t|] eqn:Et; [|discriminate].
  assert (Hsrc : d = (source_of repo).1 /\ In repo source_repos).
  { repeat (destruct Hd as [Hd|Hd];
            [inversion Hd; split; [reflexivity|cbn; tauto]|]).
    destruct Hd. }
  destruct Hsrc as [Hd' Hrepo].
  assert (Hcommon : forall name t',
            target_for (Pth.relative_to d f) name = Some t' ->
            Str.endswith name ".md" = true ->
            well_formed_mapping
              (mkFileMapping f t' (Pth.name f) name repo)).
  { intros name t' Ht' Hname. unfold well_formed_mapping, parts_of.
    cbn [source_repo old_path old_filename new_filename new_path].
    rewrite <- Hd'. repeat split; auto.
    - apply rglob_md_under in Hf. exact Hf.
    - eapply rglob_md_name, Hf. }
  clear Hd'.
  destruct (conflicts fs ms t); inversion Hstep; subst st'; cbn [fst];
    apply Forall_app; (split; [exact Hms|]); (constructor; [|constructor]).
  - destruct (target_for_other_name _ _
                (Str.drop_last 3 (normalize_filename env (Pth.name f) f)
                 +:+ "_" +:+ repo +:+ ".md") _ Et) as [t' Et'].
    rewrite Et'. cbn [default]. apply Hcommon; [exact Et'|].
    rewrite <- !StrFacts.app_assoc. apply StrFacts.endswith_app.
  - apply Hcommon; [exact Et|]. unfold normalize_filename.
    apply StrFacts.endswith_app.
Qed.

(** X6: Every mapping is well formed: its file lies in the tree of its
    repository and has a name that ends in [.md]; its destination is the
    target directory, the category, the subdirectory if the file lies
    deeper than the category, and the new filename, which ends in [.md]. *)
Theorem build_well_formed (ms : list FileMapping) (fm : Table) :
  build_filename_mapping env fs = Some (ms, fm) ->
  forall m, In m ms -> well_formed_mapping m.
Proof. exact (built_well_formed ms fm). Qed.

(** X7: Every discovered file gets exactly one mapping, and the mappings come
    in the order of discovery. *)
Theorem build_maps_every_file (ms : list FileMapping) (fm : Table) :
  build_filename_mapping env fs = Some (ms, fm) ->
  map old_path ms = discovered fs.
Proof.
  assert (Hfile : forall d repo st f st',
            map_file env fs d repo st f = Some st' ->
            map old_path st'.1 = map old_path st.1 ++ [f]).
  { intros d repo [ms0 fm0] f st' H. unfold map_file in H.
    destruct (target_for _ _) as [t|]; [|discriminate].
    destruct (conflicts fs ms0 t); inversion H; subst st'; cbn [fst];
      rewrite map_app; reflexivity. }
  assert (Hfiles : forall d repo files st st',
            map_files env fs d repo st files = Some st' ->
            map old_path st'.1 = map old_path st.1 ++ files).
  { intros d repo. induction files as [|f files IH]; intros st st' H;
      cbn [map_files] in H.
    - inversion H; subst. symmetry. apply app_nil_r.
    - destruct (map_file _ _ _ _ st f) as [st1|] eqn:E; [|discriminate].
      rewrite (IH _ _ H), (Hfile _ _ _ _ _ E), <- List.app_assoc. reflexivity. }
  assert (Hsources : forall sources st st',
            map_sources env fs st sources = Some st' ->
            map old_path st'.1
            = map old_path st.1
              ++ concat (map (fun src => if Fs.exists_ fs src.1
                                         then Fs.rglob_md fs src.1 else [])
                             sources)).
  { induction sources as [|[d repo] sources IH]; intros st st' H;
      cbn [map_sources map concat fst] in *.
    - inversion H; subst. symmetry. apply app_nil_r.
    - destruct (Fs.exists_ fs d); cbn [negb] in H.
      + destruct (map_files _ _ _ _ st _) as [st1|] eqn:E; [|discriminate].
        rewrite (IH _ _ H), (Hfiles _ _ _ _ _ E), <- List.app_assoc. reflexivity.
      + rewrite (IH _ _ H). reflexivity. }
  intros H. apply Hsources in H. exact H.
Qed.

Lemma new_paths_are_no_old_paths (ms : list FileMapping) (fm : Table) :
  build_filename_mapping env fs = Some (ms, fm) ->
  forall m m', In m ms -> In m' ms -> new_path m <> old_path m'.
Proof.
  intros H m m' Hm Hm' E.
  pose proof (build_new_under env fs ms fm H m Hm) as Hnew.
  pose proof (build_old_from_source env fs ms fm H m' Hm') as Hold.
  apply from_source_not_target in Hold. congruence.
Qed.

(** X8: No destination is a discovered file: the script never writes over a
    file that it still has to read. *)
Theorem destinations_are_no_sources (ms : list FileMapping) (fm : Table) :
  build_filename_mapping env fs = Some (ms, fm) ->
  forall m m', In m ms -> In m' ms -> new_path m <> old_path m'.
Proof. exact (new_paths_are_no_old_paths ms fm). Qed.

End MapperShape.

(** ** The filename table and the mappings *)

Section TableEntries.

Variable env : Env.
Variable fs : FS.

Lemma table_of_origin (ms : list FileMapping) (k v : string) :
  table_of ms !! k = Some v ->
  exists m, In m ms /\ old_filename m = k /\ new_filename m = v.
Proof.
  induction ms as [|x ms IH] using rev_ind.
  - intros H. unfold table_of, Table in H. cbn [fold_left] in H.
    rewrite lookup_empty in H. discriminate H.
  - rewrite table_of_snoc. intros H.
    apply lookup_insert_Some in H as [[<- <-]|[_ H]].
    + exists x. split; [apply in_or_app; right; left; reflexivity | auto].
    + destruct (IH H) as (m & Hm & Hk & Hv). exists m.
      split; [apply in_or_app; left; exact Hm | auto].
Qed.

Lemma table_of_covers (ms : list FileMapping) (m : FileMapping) :
  In m ms -> is_Some (table_of ms !! old_filename m).
Proof.
  induction ms as [|x ms IH] using rev_ind; [intros []|].
  rewrite table_of_snoc. intros H. apply in_app_or in H as [H|[<-|[]]].
  - destruct (decide (old_filename x = old_filename m)) as [E|E].
    + rewrite E. eexists. apply lookup_insert_eq.
    + destruct (IH H) as [v Hv]. exists v. rewrite <- Hv.
      apply lookup_insert_ne. exact E.
  - eexists. apply lookup_insert_eq.
Qed.

(** X9: The filename table has an entry for the name of every discovered
    file, and nothing else: every entry maps the name of a discovered
    file to the new filename of a mapping of a file of that name, which
    ends in [.md]. *)
Theorem table_entries (ms : list FileMapping) (fm : Table) :
  build_filename_mapping env fs = Some (ms, fm) ->
  (forall m, In m ms -> is_Some (fm !! old_filename m)) /\
  (forall k v, fm !! k = Some v ->
     exists m, In m ms /\ old_filename m = k /\ new_filename m = v /\
               Str.endswith k ".md" = true /\ Str.endswith v ".md" = true).
Proof.
  intros H. pose proof (build_inv env fs ms fm H) as [Ht _]. cbn [fst snd] in Ht.
  subst fm. split.
  - intros m Hm. apply table_of_covers, Hm.
  - intros k v Hkv. destruct (table_of_origin ms k v Hkv) as (m & Hm & Hk & Hv).
    exists m. destruct (built_well_formed env fs ms _ H m Hm)
      as (_ & _ & _ & Hold & _ & Hnew).
    rewrite <- Hk, <- Hv. auto 6.
Qed.

End TableEntries.

(** ** When the destinations are pairwise distinct *)

Module Suffix.

Lemma after_first_app (b t : string) :
  no_hyphen b -> after_first "-" (b +:+ t) = after_first "-" t.
Proof.
  unfold no_hyphen. induction b as [|d b IH]; intros H; [reflexivity|].
  rewrite StrFacts.app_cons. cbn [after_first Str.has_char] in *.
  apply orb_false_iff in H as [Hd H]. rewrite Hd. apply IH, H.
Qed.

Lemma app_inv_tail (b1 b2 t : string) : b1 +:+ t = b2 +:+ t -> b1 = b2.
Proof.
  intros E.
  assert (Hlen : Str.len b1 = Str.len b2).
  { apply (f_equal Str.len) in E. rewrite !StrFacts.len_app in E. lia. }
  rewrite <- (StrFacts.take_app b1 t), <- (StrFacts.take_app b2 t), E, Hlen.
  reflexivity.
Qed.

(** A base without a hyphen and the repository can be read back from the
    name with the repository suffix. *)
Lemma suffixed_inj (b1 b2 r1 r2 : string) :
  no_hyphen b1 -> no_hyphen b2 ->
  In r1 source_repos -> In r2 source_repos ->
  b1 +:+ "_" +:+ r1 +:+ ".md" = b2 +:+ "_" +:+ r2 +:+ ".md" ->
  b1 = b2 /\ r1 = r2.
Proof.
  intros H1 H2 Hr1 Hr2 E.
  pose proof (f_equal (after_first "-") E) as Ea.
  rewrite (after_first_app b1), (after_first_app b2) in Ea by assumption.
  cbn in Hr1, Hr2.
  destruct Hr1 as [<-|[<-|[<-|[<-|[]]]]];
    destruct Hr2 as [<-|[<-|[<-|[<-|[]]]]];
    vm_compute in Ea; try discriminate Ea;
    (split; [|reflexivity]); eapply app_inv_tail; exact E.
Qed.

Lemma suffixed_has_hyphen (b r : string) :
  In r source_repos -> Str.has_char "-" (b +:+ "_" +:+ r +:+ ".md") = true.
Proof.
  intros Hr. rewrite !StrFacts.has_char_app.
  cbn in Hr. destruct Hr as [<-|[<-|[<-|[<-|[]]]]];
    rewrite orb_true_iff; right; reflexivity.
Qed.

Lemma target_for_same_dir (p1 p2 : Path) (a b : string) (t : Path) :
  target_for p1 a = Some t -> target_for p2 a = Some t ->
  target_for p1 b = target_for p2 b.
Proof.
  destruct p1 as [|x1 [|y1 [|z1 p1]]]; destruct p2 as [|x2 [|y2 [|z2 p2]]];
    cbn; intros H1 H2; simplify_eq; reflexivity.
Qed.

Lemma NoDup_map_earlier {A B : Type} (f : A -> B) (l : list A) :
  (forall l1 x l2, l = l1 ++ x :: l2 -> forall y, In y l1 -> f y <> f x) ->
  NoDup (map f l).
Proof.
  induction l as [|x l IH] using rev_ind; intros H; [constructor|].
  rewrite map_app. cbn [map]. apply NoDup_app. split; [|split].
  - apply IH. intros l1 y l2 -> z Hz.
    apply (H l1 y (l2 ++ [x])); [|exact Hz].
    rewrite <- List.app_assoc. reflexivity.
  - intros b Hb Hx. apply list_elem_of_In in Hb, Hx.
    destruct Hx as [<-|[]].
    apply in_map_iff in Hb as (y & Hy & Hin).
    apply (H l x [] eq_refl y Hin). exact Hy.
  - apply NoDup_singleton.
Qed.

End Suffix.

Section Unique.

Variable env : Env.
Variable fs : FS.

Lemma normalized_base (m : FileMapping) :
  no_hyphen (Str.drop_last 3 (normalized env m)) /\
  normalized env m = Str.drop_last 3 (normalized env m) +:+ ".md".
Proof.
  assert (E : normalized env m = Str.drop_last 3 (normalized env m) +:+ ".md").
  { apply (StrFacts.endswith_split _ ".md"). unfold normalized, normalize_filename.
    apply StrFacts.endswith_app. }
  split; [|exact E].
  pose proof (normalize_filename_no_hyphen env (old_filename m) (old_path m)) as H.
  unfold no_hyphen in *. fold (normalized env m) in H.
  rewrite E, StrFacts.has_char_app in H.
  apply orb_false_iff in H as [H _]. exact H.
Qed.

(** X10: When no two files of one repository are given the same destination at
    first, all the destinations differ: the repository suffix keeps the
    files of different repositories apart, and apart from every file that
    got no suffix. *)
Theorem destinations_unique (ms : list FileMapping) (fm : Table) :
  build_filename_mapping env fs = Some (ms, fm) ->
  (forall l1 m l2 m' l3,
     ms = l1 ++ m :: l2 ++ m' :: l3 ->
     source_repo m = source_repo m' -> tentative env m <> tentative env m') ->
  NoDup (map new_path ms).
Proof.
  intros H Hdistinct.
  pose proof (build_inv env fs ms fm H) as [_ Hrec]. cbn [fst] in Hrec.
  pose proof (built_well_formed env fs ms fm H) as Hwf.
  apply Suffix.NoDup_map_earlier.
  intros l1 m l2 Hms m0 Hm0 Heq.
  assert (Hin : In m ms) by (rewrite Hms; apply in_or_app; right; left; reflexivity).
  assert (Hin0 : In m0 ms) by (rewrite Hms; apply in_or_app; left; exact Hm0).
  destruct (Hwf m Hin) as (Hrepo & _ & _ & _ & Ht & _).
  destruct (Hwf m0 Hin0) as (Hrepo0 & _ & _ & _ & Ht0 & _).
  destruct (Hrec l1 m l2 Hms) as (_ & target & Htent & Hc).
  destruct (conflicts fs l1 target) eqn:Ec.
  - destruct Hc as [Hname _].
    assert (Hnames : new_filename m0 = new_filename m).
    { rewrite <- (target_for_name _ _ _ Ht0), <- (target_for_name _ _ _ Ht), Heq.
      reflexivity. }
    apply in_split in Hm0 as (l0 & l0' & ->).
    destruct (Hrec l0 m0 (l0' ++ m :: l2)) as (_ & target0 & Htent0 & Hc0).
    { rewrite Hms, <- List.app_assoc. reflexivity. }
    destruct (normalized_base m) as [Hb Hn].
    destruct (normalized_base m0) as [Hb0 Hn0].
    destruct (conflicts fs l0 target0).
    + destruct Hc0 as [Hname0 _].
      rewrite Hname, Hname0 in Hnames. unfold suffixed in Hnames.
      apply Suffix.suffixed_inj in Hnames as [Ebase Erepo]; try assumption.
      apply (Hdistinct l0 m0 l0' m l2); [|exact Erepo|].
      { rewrite Hms, <- List.app_assoc. reflexivity. }
      unfold tentative. rewrite Hn, Hn0, Ebase.
      rewrite Heq in Ht0.
      eapply Suffix.target_for_same_dir; [exact Ht0|].
      replace (new_filename m0) with (new_filename m); [exact Ht|].
      rewrite Hname, Hname0. unfold suffixed. rewrite Hn, Hn0, Ebase, Erepo.
      reflexivity.
    + destruct Hc0 as [Hname0 _].
      pose proof (normalize_filename_no_hyphen env (old_filename m0) (old_path m0))
        as Hno.
      fold (normalized env m0) in Hno. rewrite <- Hname0, Hnames, Hname in Hno.
      unfold no_hyphen, suffixed in Hno.
      rewrite Suffix.suffixed_has_hyphen in Hno by exact Hrepo. discriminate.
  - destruct Hc as [_ Hpath]. unfold conflicts in Ec.
    apply orb_false_iff in Ec as [_ Ec].
    assert (Hex : existsb (fun m' => bool_decide (new_path m' = target)) l1 = true).
    { apply existsb_exists. exists m0. split; [exact Hm0|].
      apply bool_decide_eq_true. congruence. }
    congruence.
Qed.

End Unique.

Lemma build_well_formed_witness :
  build_filename_mapping env_jan fs_two_repos
    = Some ([two_repos_first; two_repos_second],
            table_of [two_repos_first; two_repos_second]) /\
  well_formed_mapping two_repos_second.
Proof.
  assert (Hb : build_filename_mapping env_jan fs_two_repos
               = Some ([two_repos_first; two_repos_second],
                       table_of [two_repos_first; two_repos_second]))
    by (vm_compute; reflexivity).
  split; [exact Hb|].
  apply (build_well_formed env_jan fs_two_repos _ _ Hb).
  right. left. reflexivity.
Defined.

Lemma build_maps_every_file_witness :
  build_filename_mapping env_jan fs_two_repos
    = Some ([two_repos_first; two_repos_second],
            table_of [two_repos_first; two_repos_second]) /\
  map old_path [two_repos_first; two_repos_second] = discovered fs_two_repos.
Proof.
  assert (Hb : build_filename_mapping env_jan fs_two_repos
               = Some ([two_repos_first; two_repos_second],
                       table_of [two_repos_first; two_repos_second]))
    by (vm_compute; reflexivity).
  split; [exact Hb|].
  apply (build_maps_every_file env_jan fs_two_repos _ _ Hb).
Defined.

Lemma destinations_are_no_sources_witness :
  build_filename_mapping env_jan fs_two_repos
    = Some ([two_repos_first; two_repos_second],
            table_of [two_repos_first; two_repos_second]) /\
  new_path two_repos_second <> old_path two_repos_first.
Proof.
  assert (Hb : build_filename_mapping env_jan fs_two_repos
               = Some ([two_repos_first; two_repos_second],
                       table_of [two_repos_first; two_repos_second]))
    by (vm_compute; reflexivity).
  split; [exact Hb|].
  apply (destinations_are_no_sources env_jan fs_two_repos _ _ Hb).
  - right. left. reflexivity.
  - left. reflexivity.
Defined.

Lemma table_entries_witness :
  build_filename_mapping env_jan fs_two_repos
    = Some ([two_repos_first; two_repos_second],
            table_of [two_repos_first; two_repos_second]) /\
  is_Some (table_of [two_repos_first; two_repos_second] !! "002-foo.md").
Proof.
  assert (Hb : build_filename_mapping env_jan fs_two_repos
               = Some ([two_repos_first; two_repos_second],
                       table_of [two_repos_first; two_repos_second]))
    by (vm_compute; reflexivity).
  split; [exact Hb|].
  apply (proj1 (table_entries env_jan fs_two_repos _ _ Hb) two_repos_second).
  right. left. reflexivity.
Defined.

Lemma destinations_unique_witness :
  build_filename_mapping env_jan fs_two_repos
    = Some ([two_repos_first; two_repos_second],
            table_of [two_repos_first; two_repos_second]) /\
  NoDup (map new_path [two_repos_first; two_repos_second]).
Proof.
  assert (Hb : build_filename_mapping env_jan fs_two_repos
               = Some ([two_repos_first; two_repos_second],
                       table_of [two_repos_first; two_repos_second]))
    by (vm_compute; reflexivity).
  split; [exact Hb|].
  apply (destinations_unique env_jan fs_two_repos _ _ Hb).
  intros l1 m l2 m' l3 Hsplit Hrepo.
  destruct l1 as [|x1 l1]; cbn [app] in Hsplit.
  - injection Hsplit as <- Hrest.
    destruct l2 as [|x2 l2]; cbn [app] in Hrest.
    + injection Hrest as <- _. discriminate Hrepo.
    + injection Hrest as _ Hrest. destruct l2; discriminate Hrest.
  - injection Hsplit as _ Hrest.
    destruct l1 as [|x1' l1]; cbn [app] in Hrest.
    + injection Hrest as _ Hrest. destruct l2; discriminate Hrest.
    + injection Hrest as _ Hrest. destruct l1; discriminate Hrest.
Defined.


(** ** Documentation links *)

Module DocLink.

Lemma startswith_refl (s : string) : Str.startswith s s = true.
Proof.
  induction s as [|c s IH]; [reflexivity|].
  cbn [Str.startswith]. rewrite Ascii.eqb_refl. exact IH.
Qed.

Lemma startswith_app (p t : string) : Str.startswith (p +:+ t) p = true.
Proof.
  induction p as [|c p IH]; [reflexivity|].
  rewrite StrFacts.app_cons. cbn [Str.startswith]. rewrite Ascii.eqb_refl. exact IH.
Qed.

Lemma replace_from_all (old new s : string) :
  Str.replace_from old new (Str.len s) s = "".
Proof. induction s as [|c s IH]; [reflexivity | exact IH]. Qed.

(** When the first occurrence of [old] in a string is at its end, only
    that end is replaced. *)
Lemma replace_last (old new dir : string) :
  old <> "" ->
  str_find (dir +:+ old) old = Some (Str.len dir) ->
  Str.replace old new (dir +:+ old) = dir +:+ new.
Proof.
  intros Hold. destruct old as [|c o]; [congruence|]. clear Hold.
  unfold Str.replace.
  induction dir as [|d dir IH]; intros H.
  - rewrite !StrFacts.app_nil. cbn [Str.replace_from].
    rewrite startswith_refl.
    replace (Str.len (String c o) - 1) with (Str.len o)
      by (unfold Str.len; cbn [String.length]; lia).
    rewrite replace_from_all. apply StrFacts.app_nil_r.
  - rewrite !StrFacts.app_cons in *. cbn [str_find] in H.
    cbn [Str.replace_from].
    destruct (Str.startswith (String d (dir +:+ String c o)) (String c o));
      [discriminate|].
    f_equal. apply IH.
    destruct (str_find (dir +:+ String c o) (String c o)) as [i|];
      [|discriminate].
    cbn in H. inversion H. reflexivity.
Qed.

End DocLink.

Section DocLinkProps.

Variable filename_map : Table.
Variable source_repo : string.

(** X11: [normalize_doc_link] leaves a link alone when its last component is no
    key of the table; and when it is one and occurs nowhere earlier in the
    link, the link keeps its directories and gets the new name as its last
    component. *)
Theorem normalize_doc_link_cases (link : string) :
  (filename_map !! OsPath.basename link = None ->
   normalize_doc_link link filename_map source_repo = link) /\
  (forall dir filename new,
     link = dir +:+ filename ->
     filename <> "" ->
     OsPath.basename link = filename ->
     filename_map !! filename = Some new ->
     str_find link filename = Some (Str.len dir) ->
     normalize_doc_link link filename_map source_repo = dir +:+ new).
Proof.
  unfold normalize_doc_link. split.
  - intros ->. reflexivity.
  - intros dir filename new -> Hne -> -> Hfind.
    apply DocLink.replace_last; assumption.
Qed.

End DocLinkProps.

Lemma normalize_doc_link_cases_witness :
  table_foo !! OsPath.basename "../design/other.md" = None /\
  normalize_doc_link "../design/other.md" table_foo "sdk-rust" = "../design/other.md" /\
  normalize_doc_link "../design/001-foo.md" table_foo "sdk-rust"
    = "../design/20240102_foo.md".
Proof.
  split; [reflexivity|]. split.
  - apply (proj1 (normalize_doc_link_cases table_foo "sdk-rust" "../design/other.md")).
    reflexivity.
  - apply (proj2 (normalize_doc_link_cases table_foo "sdk-rust" "../design/001-foo.md")
             "../design/" "001-foo.md" "20240102_foo.md");
      try reflexivity. discriminate.
Defined.

(** ** Text that the reference rewriter passes through *)

Module Frame.

Import Re.

(** A pattern that can only match at a given character finds nothing in a
    text without that character. *)
Lemma search_needs_char (r : regex) (c : ascii) :
  (forall ma b, match_here r ma b "" = None) ->
  (forall ma b d s, Ascii.eqb c d = false -> match_here r ma b (String d s) = None) ->
  forall s b, Str.has_char c s = false -> search_from r b s = false.
Proof.
  intros Hnil Hcons. induction s as [|d s IH]; intros b H; cbn [search_from].
  - rewrite Hnil. reflexivity.
  - cbn [Str.has_char] in H. apply orb_false_iff in H as [Hd H].
    rewrite Hcons by exact Hd. apply IH, H.
Qed.

Lemma md_link_needs_bracket (s : string) (b : bool) :
  Str.has_char "[" s = false -> search_from md_link_pattern b s = false.
Proof.
  apply search_needs_char.
  - reflexivity.
  - intros ma b' d s' H. unfold match_here, md_link_pattern. cbn [run].
    rewrite H. reflexivity.
Qed.

Lemma code_ref_needs_backtick (s : string) (b : bool) :
  Str.has_char "`" s = false -> search_from code_ref_pattern b s = false.
Proof.
  apply search_needs_char.
  - reflexivity.
  - intros ma b' d s' H. unfold match_here, code_ref_pattern. cbn [run].
    rewrite H. reflexivity.
Qed.

Lemma meta_needs_star (s : string) (b : bool) :
  Str.has_char "*" s = false -> search_from meta_pattern b s = false.
Proof.
  apply search_needs_char.
  - reflexivity.
  - intros ma b' d s' H. unfold match_here, meta_pattern. cbn [run Lit].
    rewrite H. reflexivity.
Qed.

End Frame.

Section FrameProps.

Variable filename_map : Table.
Variable source_repo : string.

(** X16: Each pass leaves a text without its opening character as it is: the
    hyperlink pass a text without an opening bracket, the inline code pass
    a text without a backtick, the pass of the labelled references a text
    without a star.  A text with none of the three comes out of the
    rewriter unchanged, and no warning is given. *)
Theorem rewriter_passes_plain_text (content : string) :
  (Str.has_char "[" content = false ->
   Re.sub md_link_pattern (replace_md_link filename_map source_repo) content
     = content) /\
  (Str.has_char "`" content = false ->
   Re.sub code_ref_pattern (replace_code_ref source_repo) content = content) /\
  (Str.has_char "*" content = false ->
   Re.sub meta_pattern (replace_meta filename_map source_repo) content = content) /\
  (Str.has_char "[" content = false ->
   Str.has_char "`" content = false ->
   Str.has_char "*" content = false ->
   normalize_links_in_content content filename_map source_repo = (content, [])).
Proof.
  assert (H1 : Str.has_char "[" content = false ->
               Re.sub md_link_pattern (replace_md_link filename_map source_repo)
                 content = content).
  { intros H. apply ReFacts.sub_no_match, Frame.md_link_needs_bracket, H. }
  assert (H2 : Str.has_char "`" content = false ->
               Re.sub code_ref_pattern (replace_code_ref source_repo) content
               = content).
  { intros H. apply ReFacts.sub_no_match, Frame.code_ref_needs_backtick, H. }
  assert (H3 : Str.has_char "*" content = false ->
               Re.sub meta_pattern (replace_meta filename_map source_repo) content
               = content).
  { intros H. apply ReFacts.sub_no_match, Frame.meta_needs_star, H. }
  repeat split; try assumption.
  intros Hb Hq Hs. unfold normalize_links_in_content.
  rewrite (H1 Hb), (H2 Hq), (H3 Hs). reflexivity.
Qed.

End FrameProps.

Lemma rewriter_passes_plain_text_witness :
  Str.has_char "[" "See src/handler.rs and 001-foo.md." = false /\
  Str.has_char "`" "See src/handler.rs and 001-foo.md." = false /\
  Str.has_char "*" "See src/handler.rs and 001-foo.md." = false /\
  normalize_links_in_content "See src/handler.rs and 001-foo.md." table_foo "sdk-rust"
    = ("See src/handler.rs and 001-foo.md.", []).
Proof.
  do 3 (split; [reflexivity|]).
  apply (proj2 (proj2 (proj2
           (rewriter_passes_plain_text table_foo "sdk-rust"
              "See src/handler.rs and 001-foo.md.")))); reflexivity.
Defined.

(** ** Code references, rewritten twice *)

Section CodeRefTwice.

Lemma has_repo_prefix_intro (repo rest : string) :
  In repo KNOWN_REPOS -> has_repo_prefix (repo +:+ "/" +:+ rest) = true.
Proof.
  intros H. unfold has_repo_prefix. apply existsb_exists. exists repo.
  split; [exact H|]. rewrite <- StrFacts.app_assoc. apply DocLink.startswith_app.
Qed.

(** X12: A reference that was rewritten for a known repository is left as it
    is when it is rewritten again, for whatever repository; this holds for
    every reference that does not start with the workspace root. *)
Theorem normalize_code_reference_idempotent (ref origin origin' : string) :
  In origin KNOWN_REPOS ->
  Str.startswith ref (Pth.str WORKSPACE) = false ->
  normalize_code_reference (normalize_code_reference ref origin) origin'
  = normalize_code_reference ref origin.
Proof.
  intros Horigin Hws.
  assert (Hprefixed : forall rest,
            normalize_code_reference (origin +:+ "/" +:+ rest) origin'
            = origin +:+ "/" +:+ rest).
  { intros rest. unfold normalize_code_reference.
    rewrite has_repo_prefix_intro by exact Horigin. reflexivity. }
  remember (normalize_code_reference ref origin) as r eqn:Er.
  unfold normalize_code_reference in Er. cbv zeta in Er. rewrite Hws in Er.
  destruct (has_repo_prefix ref) eqn:Hrepo.
  { subst r. unfold normalize_code_reference. rewrite Hrepo. reflexivity. }
  destruct (Str.startswith ref "..") eqn:Hdots; [subst r; apply Hprefixed|].
  destruct (Str.contains ref "/" && negb (Str.startswith ref ".")
            && in_code_extensions (OsPath.splitext ref).2) eqn:Hbare;
    [subst r; apply Hprefixed|].
  subst r. unfold normalize_code_reference. rewrite Hrepo. cbv zeta.
  rewrite Hws, Hdots, Hbare. reflexivity.
Qed.

End CodeRefTwice.

Lemma normalize_code_reference_idempotent_witness :
  In "sdk-rust" KNOWN_REPOS /\
  Str.startswith "../../src/lib.rs" (Pth.str WORKSPACE) = false /\
  normalize_code_reference (normalize_code_reference "../../src/lib.rs" "sdk-rust")
    "flovyn-app"
  = normalize_code_reference "../../src/lib.rs" "sdk-rust".
Proof.
  assert (Hin : In "sdk-rust" KNOWN_REPOS) by (cbn; tauto).
  split; [exact Hin|]. split; [reflexivity|].
  apply (normalize_code_reference_idempotent "../../src/lib.rs" "sdk-rust" "flovyn-app");
    [exact Hin | reflexivity].
Defined.

(** ** What a run leaves in place *)

Module TargetOnly.

Lemma only_of_preserving {A : Type} (c : M A) : fs_preserving c -> target_only c.
Proof. intros H w. rewrite (H w). auto. Qed.

Lemma only_bind {A B : Type} (c : M A) (f : A -> M B) :
  target_only c -> (forall a, target_only (f a)) -> target_only (c ≫= f).
Proof.
  intros Hc Hf w. rewrite EffFacts.bind_eq.
  destruct (Hc w) as (H1 & H2 & H3).
  destruct (c w) as [w' [a|e]]; cbn [fst] in *; [|auto].
  destruct (Hf a w') as (H1' & H2' & H3').
  split; [|split].
  - intros p Hp. rewrite (H1' p Hp). apply H1, Hp.
  - auto.
  - auto.
Qed.

Lemma only_mkdir_p (p : Path) : target_only (Eff.mkdir_p p).
Proof.
  intros w. unfold Eff.mkdir_p. destruct (existsb _ _); cbn [fst w_fs fs_files fs_dirs].
  - auto.
  - split; [auto|]. split; [|auto].
    intros q Hq. apply elem_of_union. left. exact Hq.
Qed.

Lemma only_write_text (p : Path) (content : string) :
  Pth.under TARGET_DIR p = true -> target_only (Eff.write_text p content).
Proof.
  intros Hp w. unfold Eff.write_text.
  destruct (bool_decide _); [auto|]. destruct (negb _); [auto|].
  cbn [fst w_fs fs_files fs_dirs]. split; [|split; [auto|]].
  - intros q Hq. apply lookup_insert_ne. congruence.
  - intros q Hq. destruct (decide (p = q)) as [<-|Hne].
    + eexists. apply lookup_insert_eq.
    + destruct Hq as [v Hv]. exists v. rewrite <- Hv. apply lookup_insert_ne, Hne.
Qed.

Lemma only_when (cond : bool) (body : M unit) :
  target_only body -> target_only (Eff.when cond body).
Proof.
  intros H. destruct cond; [exact H|].
  apply only_of_preserving, EffFacts.preserving_ret.
Qed.

Lemma only_for_each {A : Type} (l : list A) (body : A -> M unit) :
  (forall x, In x l -> target_only (body x)) -> target_only (Eff.for_each l body).
Proof.
  induction l as [|x l IH]; intros H; cbn [Eff.for_each].
  - apply only_of_preserving, EffFacts.preserving_ret.
  - apply only_bind; [apply H; left; reflexivity|].
    intros _. apply IH. intros y Hy. apply H. right. exact Hy.
Qed.

Lemma only_for_extend {A B : Type} (l : list A) (body : A -> M (list B)) :
  (forall x, In x l -> target_only (body x)) ->
  forall acc, target_only (Eff.for_extend l body acc).
Proof.
  induction l as [|x l IH]; intros H acc; cbn [Eff.for_extend].
  - apply only_of_preserving, EffFacts.preserving_ret.
  - apply only_bind; [apply H; left; reflexivity|].
    intros ys. apply IH. intros y Hy. apply H. right. exact Hy.
Qed.

Lemma only_print (line : string) : target_only (Eff.print line).
Proof. apply only_of_preserving, EffFacts.preserving_print. Qed.

End TargetOnly.

Section RunKeeps.

Variable env : Env.

Lemma migrate_file_target_only (m : FileMapping) (filename_map : Table)
    (dry_run : bool) :
  Pth.under TARGET_DIR (new_path m) = true ->
  target_only (migrate_file m filename_map dry_run).
Proof.
  intros Hm. unfold migrate_file.
  apply TargetOnly.only_bind;
    [apply TargetOnly.only_of_preserving, EffFacts.preserving_read_text|].
  intros content. unfold normalize_links_in_content. cbv zeta iota beta.
  apply TargetOnly.only_bind;
    [|intros _; apply TargetOnly.only_of_preserving, EffFacts.preserving_ret].
  apply TargetOnly.only_when, TargetOnly.only_bind; [apply TargetOnly.only_mkdir_p|].
  intros _. apply TargetOnly.only_write_text, Hm.
Qed.

Lemma migrate_all_target_only (dry_run : bool) (ms : list FileMapping) (fm : Table) :
  (forall m, In m ms -> Pth.under TARGET_DIR (new_path m) = true) ->
  target_only (migrate_all env dry_run (ms, fm)).
Proof.
  intros Hms. unfold migrate_all.
  apply TargetOnly.only_bind; [apply TargetOnly.only_print|]. intros _.
  apply TargetOnly.only_bind.
  { apply TargetOnly.only_for_extend. intros m Hm. unfold migrate_mapping.
    apply TargetOnly.only_bind; [apply TargetOnly.only_print|]. intros _.
    apply TargetOnly.only_bind; [apply TargetOnly.only_print|]. intros _.
    apply migrate_file_target_only, Hms, Hm. }
  intros all_warnings.
  apply TargetOnly.only_bind.
  { unfold write_mapping_file. destruct dry_run.
    - apply TargetOnly.only_of_preserving, EffFacts.preserving_ret.
    - apply TargetOnly.only_write_text. reflexivity. }
  intros _. apply TargetOnly.only_bind; [apply TargetOnly.only_print|]. intros _.
  apply TargetOnly.only_bind.
  { unfold print_summary. destruct dry_run.
    - apply TargetOnly.only_bind; [apply TargetOnly.only_print|]. intros _.
      apply TargetOnly.only_print.
    - apply TargetOnly.only_bind;
        [apply TargetOnly.only_of_preserving, EffFacts.preserving_get_fs|].
      intros fs. apply TargetOnly.only_bind; [apply TargetOnly.only_print|]. intros _.
      apply TargetOnly.only_print. }
  intros _. unfold print_warnings. apply TargetOnly.only_when.
  apply TargetOnly.only_bind; [apply TargetOnly.only_print|]. intros _.
  apply TargetOnly.only_for_each. intros x _. apply TargetOnly.only_print.
Qed.

(** X17: A run, dry or not, and however it ends, deletes nothing and changes no
    file outside the target directory: the documentation trees of the
    source repositories are left as they were. *)
Theorem run_keeps_sources (dry_run : bool) (w : World) :
  (forall p, Pth.under TARGET_DIR p = false ->
             fs_files (w_fs (main env dry_run w).1) !! p = fs_files (w_fs w) !! p) /\
  (forall p, p ∈ fs_dirs (w_fs w) -> p ∈ fs_dirs (w_fs (main env dry_run w).1)) /\
  (forall p, is_Some (fs_files (w_fs w) !! p) ->
             is_Some (fs_files (w_fs (main env dry_run w).1) !! p)) /\
  (forall p, from_source p = true ->
             fs_files (w_fs (main env dry_run w).1) !! p = fs_files (w_fs w) !! p).
Proof.
  assert (H : target_only (main env dry_run)).
  { unfold main.
    apply TargetOnly.only_bind; [apply TargetOnly.only_when, TargetOnly.only_print|]. intros _.
    apply TargetOnly.only_bind; [apply TargetOnly.only_print|]. intros _.
    apply TargetOnly.only_bind; [apply TargetOnly.only_print|]. intros _.
    apply TargetOnly.only_bind.
    { apply TargetOnly.only_for_each. intros d _. unfold create_target_dir.
      apply TargetOnly.only_bind; [apply TargetOnly.only_print|]. intros _.
      apply TargetOnly.only_when, TargetOnly.only_mkdir_p. }
    intros _.
    apply TargetOnly.only_bind; [apply TargetOnly.only_print|]. intros _.
    apply TargetOnly.only_bind; [apply TargetOnly.only_print|]. intros _.
    apply TargetOnly.only_bind;
      [apply TargetOnly.only_of_preserving, EffFacts.preserving_get_fs|].
    intros fs.
    destruct (build_filename_mapping env fs) as [[ms fm]|] eqn:Eb.
    - apply migrate_all_target_only. exact (build_new_under env fs ms fm Eb).
    - apply TargetOnly.only_of_preserving, EffFacts.preserving_raise. }
  destruct (H w) as (H1 & H2 & H3).
  repeat split; try assumption.
  intros p Hp. apply H1, from_source_not_target, Hp.
Qed.

End RunKeeps.

Lemma run_keeps_sources_witness :
  from_source (docs_of "flovyn-server" ++ ["design"; "001-foo.md"]) = true /\
  fs_files (w_fs (main env_jan false three_notes_world).1)
    !! (docs_of "flovyn-server" ++ ["design"; "001-foo.md"])
  = Some "one".
Proof.
  split; [reflexivity|].
  etransitivity.
  - apply (proj2 (proj2 (proj2 (run_keeps_sources env_jan false three_notes_world)))).
    reflexivity.
  - vm_compute. reflexivity.
Defined.

(** ** What a run that executes has done at its end *)

Section ExecPost.

Variable env : Env.





End ExecPost.


(** ** The documentation root in a link *)

Module Collapse.

Import Re.

Lemma is_suffix_refl (s : string) : is_suffix s s.
Proof. exists "". reflexivity. Qed.

Lemma is_suffix_trans (s1 s2 s3 : string) :
  is_suffix s1 s2 -> is_suffix s2 s3 -> is_suffix s1 s3.
Proof.
  intros [p ->] [q ->]. exists (q +:+ p). symmetry. apply StrFacts.app_assoc.
Qed.

Lemma is_suffix_tail (c : ascii) (s : string) : is_suffix s (String c s).
Proof. exists (String c ""). reflexivity. Qed.

(** The matcher calls its continuation on what is left of the subject. *)
Lemma star_loop_suffix {A : Type}
    (step : bool -> string -> groups ->
            (bool -> string -> groups -> option A) -> option A)
    (k : bool -> string -> groups -> option A) :
  (forall b s g k' x, step b s g k' = Some x ->
     exists b' s' g', is_suffix s' s /\ k' b' s' g' = Some x) ->
  forall fuel b s g x, star_loop step k fuel b s g = Some x ->
    exists b' s' g', is_suffix s' s /\ k b' s' g' = Some x.
Proof.
  intros Hstep fuel. induction fuel as [|fuel IH]; intros b s g x H.
  - simpl in H. eauto using is_suffix_refl.
  - simpl in H.
    destruct (step b s g _) as [y|] eqn:E.
    + inversion H; subst y. apply Hstep in E as (b' & s' & g' & Hs & E).
      destruct (Str.len s' <? Str.len s).
      * apply IH in E as (b2 & s2 & g2 & Hs2 & E).
        exists b2, s2, g2. split; [eapply is_suffix_trans; eassumption | exact E].
      * eauto.
    + eauto using is_suffix_refl.
Qed.

Lemma run_suffix {A : Type} (r : regex) :
  forall b s g (k : bool -> string -> groups -> option A) x,
    run r b s g k = Some x ->
    exists b' s' g', is_suffix s' s /\ k b' s' g' = Some x.
Proof.
  induction r as [| |c|p|r1 IH1 r2 IH2|r1 IH1 r2 IH2|r1 IH1|i r1 IH1];
    intros b s g k x H; simpl in H.
  - eauto using is_suffix_refl.
  - destruct b; [eauto using is_suffix_refl | discriminate].
  - destruct s as [|d s']; [discriminate|].
    destruct (Ascii.eqb c d); [eauto using is_suffix_tail | discriminate].
  - destruct s as [|d s']; [discriminate|].
    destruct (p d); [eauto using is_suffix_tail | discriminate].
  - apply IH1 in H as (b' & s' & g' & Hs & H).
    apply IH2 in H as (b2 & s2 & g2 & Hs2 & H).
    exists b2, s2, g2. split; [eapply is_suffix_trans; eassumption | exact H].
  - destruct (run r1 b s g k) as [y|] eqn:E.
    + inversion H; subst y. eapply IH1. exact E.
    + eapply IH2. exact H.
  - eapply star_loop_suffix; [|exact H].
    intros b0 s0 g0 k' x0 H0. eapply IH1. exact H0.
  - apply IH1 in H as (b' & s' & g' & Hs & H). eauto.
Qed.

(** A literal matches where the subject starts with it. *)
Lemma run_lit_startswith {A : Type} (l : string) :
  forall b s g (k : bool -> string -> groups -> option A) x,
    run (Lit l) b s g k = Some x -> Str.startswith s l = true.
Proof.
  induction l as [|c l IH]; intros b s g k x H; [reflexivity|].
  cbn [Lit run] in H. destruct s as [|d s]; [discriminate|].
  cbn [Str.startswith]. destruct (Ascii.eqb c d); [|discriminate].
  eapply IH. exact H.
Qed.

Lemma run_lit_app {A : Type} (l : string) :
  forall b rest g (k : bool -> string -> groups -> option A),
    l <> "" -> run (Lit l) b (l +:+ rest) g k = k false rest g.
Proof.
  induction l as [|c l IH]; intros b rest g k Hl; [congruence|].
  rewrite StrFacts.app_cons. cbn [Lit run]. rewrite Ascii.eqb_refl.
  destruct l as [|c' l]; [reflexivity|]. apply IH. discriminate.
Qed.

Lemma contains_suffix (s' s l : string) :
  is_suffix s' s -> Str.startswith s' l = true -> Str.contains s l = true.
Proof.
  intros [p ->] H. induction p as [|c p IH].
  - rewrite StrFacts.app_nil. destruct s'; cbn [Str.contains]; rewrite H; reflexivity.
  - rewrite StrFacts.app_cons. cbn [Str.contains]. rewrite IH. apply orb_true_r.
Qed.

(** Without the marker [/.dev/docs/] in the text, the pattern matches
    nowhere. *)
Lemma no_marker_no_match (s : string) (ma b : bool) :
  Str.contains s "/.dev/docs/" = false ->
  match_here dev_docs_pattern ma b s = None.
Proof.
  intros H. destruct (match_here dev_docs_pattern ma b s) as [m|] eqn:E;
    [|reflexivity].
  unfold match_here, dev_docs_pattern in E.
  change (run (Cat (Plus (Cls (none_of "/"))) (Lit "/.dev/docs/")) b s [] ?k)
    with (run (Plus (Cls (none_of "/"))) b s []
            (fun b' s' g' => run (Lit "/.dev/docs/") b' s' g' k)) in E.
  apply run_suffix in E as (b' & s' & g' & Hs & E).
  apply run_lit_startswith in E.
  rewrite (contains_suffix _ _ _ Hs E) in H. discriminate.
Qed.

Lemma contains_tail (c : ascii) (s l : string) :
  Str.contains (String c s) l = false -> Str.contains s l = false.
Proof.
  cbn [Str.contains]. intros H. apply orb_false_iff in H as [_ H]. exact H.
Qed.

Lemma no_marker_no_search (s : string) :
  forall b, Str.contains s "/.dev/docs/" = false ->
            search_from dev_docs_pattern b s = false.
Proof.
  induction s as [|c s IH]; intros b H; cbn [search_from];
    rewrite no_marker_no_match by exact H; [reflexivity|].
  apply IH. eapply contains_tail, H.
Qed.

(** The star of [[^/]+] takes a segment without a slash up to the slash
    that follows it. *)
Lemma star_takes_segment {A : Type} (rest : string) :
  forall seg fuel b g (k : bool -> string -> groups -> option A),
    Str.has_char "/" seg = false ->
    Str.len seg <= fuel ->
    k (match seg with "" => b | _ => false end) ("/" +:+ rest) g <> None ->
    star_loop step_no_slash k fuel b (seg +:+ "/" +:+ rest) g
    = k (match seg with "" => b | _ => false end) ("/" +:+ rest) g.
Proof.
  induction seg as [|c seg IH]; intros fuel b g k Hseg Hfuel Hk.
  - rewrite StrFacts.app_nil. destruct fuel as [|fuel]; [reflexivity|].
    cbn [star_loop]. reflexivity.
  - destruct fuel as [|fuel]; [unfold Str.len in Hfuel; cbn in Hfuel; lia|].
    cbn [Str.has_char] in Hseg. apply orb_false_iff in Hseg as [Hc Hseg].
    rewrite StrFacts.app_cons. cbn [star_loop]. unfold step_no_slash at 1.
    cbn [run]. unfold none_of at 1. cbn [Str.has_char].
    rewrite Ascii.eqb_sym, Hc. cbn [orb negb].
    replace (Str.len (seg +:+ "/" +:+ rest) <?
             Str.len (String c (seg +:+ "/" +:+ rest))) with true
      by (symmetry; apply Nat.ltb_lt; unfold Str.len; cbn [String.length]; lia).
    assert (Hk' : k (match seg with "" => false | _ => false end)
                    ("/" +:+ rest) g <> None)
      by (destruct seg; exact Hk).
    rewrite (IH fuel false g k Hseg); [| |exact Hk'].
    + destruct seg; destruct (k false ("/" +:+ rest) g); congruence.
    + unfold Str.len in *. cbn [String.length] in Hfuel. lia.
Qed.

End Collapse.

Section CollapseProps.

Lemma collapse_without_marker (path : string) :
  Str.contains path "/.dev/docs/" = false -> collapse_dev_docs path = path.
Proof. intros H. apply ReFacts.sub_no_match, Collapse.no_marker_no_search, H. Qed.

Lemma collapse_leading_segment (seg rest : string) :
  seg <> "" -> Str.has_char "/" seg = false ->
  Str.contains rest "/.dev/docs/" = false ->
  collapse_dev_docs (seg +:+ "/.dev/docs/" +:+ rest) = "dev/docs/" +:+ rest.
Proof.
  intros Hne Hseg Hrest.
  destruct seg as [|c seg]; [congruence|]. clear Hne.
  cbn [Str.has_char] in Hseg. apply orb_false_iff in Hseg as [Hc Hseg].
  set (s := String c seg +:+ "/.dev/docs/" +:+ rest).
  assert (Hm : Re.match_here dev_docs_pattern false true s
               = Some (Re.mkMatch (Str.take (Str.len s - Str.len rest) s) [] rest)).
  { unfold Re.match_here, dev_docs_pattern.
    change (Re.run (Re.Cat (Re.Plus (Re.Cls (Re.none_of "/")))
                           (Re.Lit "/.dev/docs/")) true s [] ?k)
      with (Re.run (Re.Cls (Re.none_of "/")) true s []
              (fun b' s' g' =>
                 Re.star_loop step_no_slash
                   (fun b2 s2 g2 => Re.run (Re.Lit "/.dev/docs/") b2 s2 g2 k)
                   (Str.len s') b' s' g')).
    unfold s at 1. rewrite StrFacts.app_cons. cbn [Re.run].
    unfold Re.none_of at 1. cbn [Str.has_char].
    rewrite Ascii.eqb_sym, Hc. cbn [orb negb].
    change ("/.dev/docs/" +:+ rest) with ("/" +:+ ".dev/docs/" +:+ rest).
    rewrite Collapse.star_takes_segment.
    - change ("/" +:+ ".dev/docs/" +:+ rest) with ("/.dev/docs/" +:+ rest).
      rewrite Collapse.run_lit_app by discriminate. reflexivity.
    - exact Hseg.
    - rewrite StrFacts.len_app. lia.
    - change ("/" +:+ ".dev/docs/" +:+ rest) with ("/.dev/docs/" +:+ rest).
      rewrite Collapse.run_lit_app by discriminate. discriminate. }
  assert (Htext : Str.take (Str.len s - Str.len rest) s
                  = String c seg +:+ "/.dev/docs/").
  { unfold s. rewrite <- StrFacts.app_assoc, StrFacts.len_app.
    replace (Str.len (String c seg +:+ "/.dev/docs/") + Str.len rest
             - Str.len rest)
      with (Str.len (String c seg +:+ "/.dev/docs/")) by lia.
    apply StrFacts.take_app. }
  unfold collapse_dev_docs, Re.sub. fold s. unfold s at 1.
  rewrite StrFacts.app_cons. cbn [Re.sub_from].
  rewrite <- StrFacts.app_cons. fold s. rewrite Hm. cbn [Re.m_text].
  rewrite Htext, StrFacts.app_cons.
  change (Str.len (String c (seg +:+ "/.dev/docs/")))
    with (S (Str.len (seg +:+ "/.dev/docs/"))).
  cbv beta iota. rewrite <- StrFacts.app_assoc, CodeRef.sub_from_skip.
  rewrite (ReFacts.sub_from_id dev_docs_pattern _ rest 0 false).
  + reflexivity.
  + rewrite ReFacts.finditer_from_nil
      by (apply Collapse.no_marker_no_search, Hrest).
    intros m0 [].
Qed.

(** X14: [collapse_dev_docs] leaves a path without the marker [/.dev/docs/] as
    it is; and it replaces one leading segment before the marker, together
    with the marker, by [dev/docs/]. *)
Theorem collapse_dev_docs_cases :
  (forall path, Str.contains path "/.dev/docs/" = false ->
                collapse_dev_docs path = path) /\
  (forall seg rest,
     seg <> "" -> Str.has_char "/" seg = false ->
     Str.contains rest "/.dev/docs/" = false ->
     collapse_dev_docs (seg +:+ "/.dev/docs/" +:+ rest) = "dev/docs/" +:+ rest).
Proof. split; [exact collapse_without_marker | exact collapse_leading_segment]. Qed.

End CollapseProps.

Lemma collapse_dev_docs_cases_witness :
  Str.contains "design/x.md" "/.dev/docs/" = false /\
  collapse_dev_docs "design/x.md" = "design/x.md" /\
  collapse_dev_docs "flovyn-server/.dev/docs/design/x.md" = "dev/docs/design/x.md".
Proof.
  split; [reflexivity|]. split.
  - apply (proj1 collapse_dev_docs_cases). reflexivity.
  - apply (proj2 collapse_dev_docs_cases "flovyn-server" "design/x.md");
      [discriminate | reflexivity | reflexivity].
Defined.

(** ** The file name of a code reference *)

Module Basename.

Lemma after_last_none (c : ascii) (s : string) :
  Str.has_char c s = false -> Str.after_last c s = 0.
Proof.
  induction s as [|d s IH]; [reflexivity|].
  cbn [Str.has_char Str.after_last]. intros H.
  apply orb_false_iff in H as [Hd H]. rewrite H, Hd. reflexivity.
Qed.

(** The base name of a path does not depend on what stands before a
    slash. *)
Lemma basename_after_slash (p x : string) :
  OsPath.basename (p +:+ "/" +:+ x) = OsPath.basename x.
Proof.
  unfold OsPath.basename. induction p as [|c p IH].
  - rewrite StrFacts.app_nil.
    change ("/" +:+ x) with (String "/" x). cbn [Str.after_last].
    destruct (Str.has_char "/" x) eqn:E.
    + reflexivity.
    + rewrite (after_last_none _ _ E). reflexivity.
  - rewrite StrFacts.app_cons. cbn [Str.after_last].
    rewrite StrFacts.has_char_app.
    change (Str.has_char "/" ("/" +:+ x)) with true.
    rewrite orb_true_r. exact IH.
Qed.

Lemma dotdots_end (k : nat) : exists q, dotdots (S k) = q +:+ "/".
Proof.
  induction k as [|k [q IH]].
  - exists "..". reflexivity.
  - exists ("../" +:+ q). change (dotdots (S (S k))) with ("../" +:+ dotdots (S k)).
    rewrite IH. symmetry. apply StrFacts.app_assoc.
Qed.

(** Every text is some [../] followed by a text that does not start with
    [../]. *)
Lemma dotdots_split (n : nat) :
  forall s, Str.len s <= n ->
    exists k rest, s = dotdots k +:+ rest /\ Str.startswith rest "../" = false.
Proof.
  induction n as [|n IH]; intros s Hlen.
  - destruct s; [|unfold Str.len in Hlen; cbn in Hlen; lia].
    exists 0, "". split; reflexivity.
  - destruct (Str.startswith s "../") eqn:E.
    + destruct s as [|c1 [|c2 [|c3 s]]]; cbn [Str.startswith] in E;
        rewrite ?andb_false_r in E; try discriminate.
      apply andb_true_iff in E as [E1 E]. apply andb_true_iff in E as [E2 E].
      apply andb_true_iff in E as [E3 _].
      apply Ascii.eqb_eq in E1, E2, E3. subst c1 c2 c3.
      destruct (IH s) as (k & rest & -> & Hrest).
      { unfold Str.len in *. cbn [String.length] in Hlen. lia. }
      exists (S k), rest. split; [|exact Hrest].
      cbn [dotdots]. rewrite StrFacts.app_assoc. reflexivity.
    + exists 0, s. split; [reflexivity | exact E].
Qed.

(** A reference that does not start with [../] is left alone by the
    substitution that removes the leading [../]. *)
Lemma sub_parent_dirs_none (rest : string) :
  Str.startswith rest "../" = false ->
  Re.sub parent_dirs_pattern (fun _ => "") rest = rest.
Proof.
  intros H. apply ReFacts.sub_no_match. unfold Re.search.
  destruct rest as [|c rest]; cbn [Re.search_from].
  - reflexivity.
  - set (s := String c rest) in *.
    set (k0 := fun (_ : bool) (s' : string) (g : Re.groups) =>
                 let m := Re.mkMatch (Str.take (Str.len s - Str.len s') s) g s' in
                 if false && (Str.len (Re.m_text m) =? 0) then None else Some m).
    assert (Hrun : Re.match_here parent_dirs_pattern false true s
                   = step true s []
                       (fun b' s' g' => Re.star_loop step k0 (Str.len s') b' s' g')).
    { reflexivity. }
    rewrite Hrun, CodeRef.step_fail by exact H.
    apply CodeRef.parent_dirs_only_at_start.
Qed.

End Basename.

Section BasenameProps.

(** X13: [normalize_code_reference] changes directories only: the last
    component of the reference, with a line number if it has one, is the
    last component of the result.  This holds for every reference that
    does not start with the workspace root. *)
Theorem normalize_code_reference_keeps_basename (ref origin : string) :
  Str.startswith ref (Pth.str WORKSPACE) = false ->
  OsPath.basename (normalize_code_reference ref origin) = OsPath.basename ref.
Proof.
  intros Hws. unfold normalize_code_reference.
  destruct (has_repo_prefix ref); [reflexivity|].
  cbv zeta. rewrite Hws.
  destruct (Str.startswith ref "..").
  - rewrite Basename.basename_after_slash.
    destruct (Basename.dotdots_split (Str.len ref) ref (le_n _))
      as ([|k] & rest & -> & Hrest).
    + rewrite StrFacts.app_nil, Basename.sub_parent_dirs_none by exact Hrest.
      reflexivity.
    + rewrite CodeRef.sub_parent_dirs by exact Hrest.
      destruct (Basename.dotdots_end k) as [q ->].
      rewrite StrFacts.app_assoc. symmetry. apply Basename.basename_after_slash.
  - destruct (_ && _); [apply Basename.basename_after_slash | reflexivity].
Qed.

End BasenameProps.

Lemma normalize_code_reference_keeps_basename_witness :
  Str.startswith "../../src/lib.rs:42" (Pth.str WORKSPACE) = false /\
  OsPath.basename (normalize_code_reference "../../src/lib.rs:42" "sdk-rust")
    = "lib.rs:42".
Proof.
  split; [reflexivity|].
  apply (normalize_code_reference_keeps_basename "../../src/lib.rs:42" "sdk-rust").
  reflexivity.
Defined.

(** ** Hyperlinks to documents *)

Section DocHyperlink.

Variable filename_map : Table.
Variable source_repo : string.

(** X15: A hyperlink whose target is a document in the documentation tree of a
    repository, [seg/.dev/docs/] followed by directories and a filename
    of the table, is rewritten to [dev/docs/], the same directories and
    the new filename, under the same label.  The target is no URL, the
    filename occurs nowhere earlier in it, and the marker [/.dev/docs/]
    does not occur again. *)
Theorem replace_md_link_document (m : Re.Match) (seg mid filename new : string) :
  Re.group m 2 = seg +:+ "/.dev/docs/" +:+ mid +:+ filename ->
  is_url (Re.group m 2) = false ->
  seg <> "" -> Str.has_char "/" seg = false ->
  filename <> "" ->
  OsPath.basename (Re.group m 2) = filename ->
  filename_map !! filename = Some new ->
  str_find (Re.group m 2) filename
    = Some (Str.len (seg +:+ "/.dev/docs/" +:+ mid)) ->
  Str.contains (mid +:+ new) "/.dev/docs/" = false ->
  replace_md_link filename_map source_repo m
  = "[" +:+ Re.group m 1 +:+ "](dev/docs/" +:+ mid +:+ new +:+ ")".
Proof.
  intros Ht Hurl Hseg Hslash Hne Hbase Hfm Hfind Hrest.
  unfold replace_md_link. cbv zeta. rewrite Hurl.
  assert (Hmark : Str.contains (Re.group m 2) "/.dev/docs/" = true).
  { rewrite Ht. apply (Collapse.contains_suffix ("/.dev/docs/" +:+ mid +:+ filename)).
    - exists seg. reflexivity.
    - apply DocLink.startswith_app. }
  rewrite Hmark, orb_true_r.
  unfold normalize_doc_link. rewrite Hbase, Hfm.
  assert (Hdir : Re.group m 2 = (seg +:+ "/.dev/docs/" +:+ mid) +:+ filename).
  { rewrite Ht, !StrFacts.app_assoc. reflexivity. }
  rewrite Hdir in Hfind |- *.
  rewrite DocLink.replace_last by assumption.
  rewrite !StrFacts.app_assoc.
  rewrite collapse_leading_segment by assumption.
  rewrite !StrFacts.app_assoc. reflexivity.
Qed.

End DocHyperlink.

Lemma replace_md_link_document_witness :
  replace_md_link table_foo "sdk-rust" foo_hyperlink
  = "[plan](dev/docs/design/20240102_foo.md)".
Proof.
  exact (replace_md_link_document table_foo "sdk-rust" foo_hyperlink
           "flovyn-server" "design/" "001-foo.md" "20240102_foo.md"
           eq_refl eq_refl ltac:(discriminate) eq_refl ltac:(discriminate)
           eq_refl eq_refl eq_refl eq_refl).
Defined.
